(** * Low-Code API Builder: the workflow editor and the workflow planner

    A shallow embedding of the visual workflow editor (block metadata,
    palette, configuration panel, canvas conversions, editor page state)
    and of the execution engine's planner and condition evaluator.

    JavaScript values are modelled as a tree type [JValue]; objects keep
    their keys in insertion order.  Tables that the editor indexes by a
    block type ([BLOCK_TYPES], [nodeTypes], [configRenderers]) are finite
    maps keyed by strings. *)

From Stdlib Require Import ZArith Ascii String.
From stdpp Require Import gmap strings list fin_maps pretty.

Set Warnings "-register-all".

Open Scope string_scope.

(** ** JavaScript values *)

Inductive JValue : Type :=
| JUndefined
| JNull
| JBool (b : bool)
| JNum (n : Z)
| JStr (s : string)
| JArr (items : list JValue)
| JObj (fields : list (string * JValue)).

(** JavaScript truthiness, the test behind [a || b]. *)
Definition truthy (v : JValue) : bool :=
  match v with
  | JUndefined | JNull => false
  | JBool b => b
  | JNum n => negb (n =? 0)%Z
  | JStr s => negb (String.eqb s "")
  | JArr _ | JObj _ => true
  end.

(** [a || b] *)
Definition js_or (a b : JValue) : JValue := if truthy a then a else b.

(** [obj[key]]: the value of the property, [undefined] when it is absent. *)
Fixpoint get_field (key : string) (fields : list (string * JValue)) : JValue :=
  match fields with
  | [] => JUndefined
  | (k, v) :: rest => if String.eqb k key then v else get_field key rest
  end.

Definition js_get (v : JValue) (key : string) : JValue :=
  match v with
  | JObj fields => get_field key fields
  | _ => JUndefined
  end.

Definition keys (v : JValue) : list string :=
  match v with
  | JObj fields => fields.*1
  | _ => []
  end.

Definition is_string (v : JValue) : bool :=
  match v with JStr _ => true | _ => false end.

(** [typeof v === 'object'] with an object literal or mapping behind it. *)
Definition is_object (v : JValue) : bool :=
  match v with JObj _ => true | _ => false end.

Definition is_array (v : JValue) : bool :=
  match v with JArr _ => true | _ => false end.

(** ** nodes/CustomNodes.jsx: block type metadata *)

Record BlockMeta : Type := {
  meta_type : string;
  meta_icon : string;
  meta_label : string;
  meta_description : string;
  defaultConfig : JValue;
}.

Definition input_meta : BlockMeta := {|
  meta_type := "input";
  meta_icon := "📥";
  meta_label := "Input";
  meta_description := "Define request schema";
  defaultConfig :=
    JObj [("schema", JObj [("name", JStr "string"); ("value", JStr "number")])];
|}.

Definition db_query_meta : BlockMeta := {|
  meta_type := "db_query";
  meta_icon := "🗄️";
  meta_label := "Database Query";
  meta_description := "Query MongoDB collection";
  defaultConfig :=
    JObj [("collection", JStr "items");
          ("operation", JStr "find");
          ("query", JObj []);
          ("data", JObj []);
          ("limit", JNum 100)];
|}.

Definition api_call_meta : BlockMeta := {|
  meta_type := "api_call";
  meta_icon := "🌐";
  meta_label := "API Call";
  meta_description := "Call external API";
  defaultConfig :=
    JObj [("url", JStr "https://api.example.com/data");
          ("method", JStr "GET");
          ("headers", JObj []);
          ("body", JObj []);
          ("timeout", JNum 30)];
|}.

Definition logic_meta : BlockMeta := {|
  meta_type := "logic";
  meta_icon := "⚡";
  meta_label := "Logic";
  meta_description := "Conditional branching";
  defaultConfig :=
    JObj [("condition", JStr "true");
          ("true_value", JObj [("result", JStr "condition met")]);
          ("false_value", JObj [("result", JStr "condition not met")])];
|}.

Definition transform_meta : BlockMeta := {|
  meta_type := "transform";
  meta_icon := "🔄";
  meta_label := "Transform";
  meta_description := "Transform data fields";
  defaultConfig :=
    JObj [("operations",
           JArr [JObj [("type", JStr "set");
                       ("field", JStr "processed");
                       ("value", JStr "true")]]);
          ("input_ref", JNull)];
|}.

Definition output_meta : BlockMeta := {|
  meta_type := "output";
  meta_icon := "📤";
  meta_label := "Output";
  meta_description := "Define API response";
  defaultConfig :=
    JObj [("status_code", JNum 200);
          ("body", JObj [("message", JStr "Success");
                         ("data", JStr "{{_last_output}}")]);
          ("headers", JObj [])];
|}.

Definition BLOCK_TYPES : gmap string BlockMeta :=
  <["input" := input_meta]> (
  <["db_query" := db_query_meta]> (
  <["api_call" := api_call_meta]> (
  <["logic" := logic_meta]> (
  <["transform" := transform_meta]> (
  <["output" := output_meta]> ∅))))).

(** The node components; every one of them is [CustomNode]. *)
Inductive NodeComponent : Type :=
| InputNode | DbQueryNode | ApiCallNode | LogicNode | TransformNode | OutputNode.

Definition nodeTypes : gmap string NodeComponent :=
  <["input" := InputNode]> (
  <["db_query" := DbQueryNode]> (
  <["api_call" := ApiCallNode]> (
  <["logic" := LogicNode]> (
  <["transform" := TransformNode]> (
  <["output" := OutputNode]> ∅))))).

(** [CustomNode]: the metadata a node is drawn with,
    [BLOCK_TYPES[data.type] || BLOCK_TYPES.input]. *)
Definition node_meta (data_type : string) : BlockMeta :=
  default input_meta (BLOCK_TYPES !! data_type).

(** ** Sidebar.jsx: the palette *)

Definition BLOCK_ORDER : list string :=
  ["input"; "db_query"; "api_call"; "logic"; "transform"; "output"].


(** The block kinds as the engine names them. *)
Inductive BlockKind : Type :=
| intake | datastore_query | outbound_call | conditional | transform | respond.

#[global] Instance BlockKind_eq_dec : EqDecision BlockKind.
Proof. solve_decision. Defined.

(** The editor's type string of each kind. *)
Definition kind_type (k : BlockKind) : string :=
  match k with
  | intake => "input"
  | datastore_query => "db_query"
  | outbound_call => "api_call"
  | conditional => "logic"
  | transform => "transform"
  | respond => "output"
  end.


(** ** ConfigPanel.jsx: the configuration panel *)

(** How a completed call ends: with a value, or by throwing. *)
Inductive Completion (A : Type) : Type :=
| Normal (a : A)
| Throw.
Arguments Normal {A} a.
Arguments Throw {A}.

Definition quote_char : string := String (ascii_of_nat 34) EmptyString.
Definition backslash : string := String (ascii_of_nat 92) EmptyString.
Definition newline : string := String (ascii_of_nat 10) EmptyString.

Definition hex_digit (n : nat) : ascii :=
  ascii_of_nat (if (n <? 10)%nat then (48 + n)%nat else (87 + n)%nat).

(** One character of a quoted JSON string (ECMA-262, QuoteJSONString). *)
Definition escape_char (c : ascii) : string :=
  let n := nat_of_ascii c in
  if (n =? 34)%nat then backslash ++ quote_char
  else if (n =? 92)%nat then backslash ++ backslash
  else if (n =? 8)%nat then backslash ++ "b"
  else if (n =? 9)%nat then backslash ++ "t"
  else if (n =? 10)%nat then backslash ++ "n"
  else if (n =? 12)%nat then backslash ++ "f"
  else if (n =? 13)%nat then backslash ++ "r"
  else if (n <? 32)%nat then
    backslash ++ "u00" ++
      String (hex_digit (n / 16)%nat) (String (hex_digit (n mod 16)%nat) EmptyString)
  else String c EmptyString.

Fixpoint escape_string (s : string) : string :=
  match s with
  | EmptyString => EmptyString
  | String c rest => escape_char c ++ escape_string rest
  end.

Definition quote (s : string) : string :=
  quote_char ++ escape_string s ++ quote_char.

Fixpoint join (sep : string) (parts : list string) : string :=
  match parts with
  | [] => ""
  | [p] => p
  | p :: rest => p ++ sep ++ join sep rest
  end.

(** [JSON.stringify(val, null, 2)] on tree-shaped values (ECMA-262,
    SerializeJSONProperty with a gap of two spaces).  The result is a
    string, or [undefined] ([None]) when the value itself is [undefined];
    an [undefined] array element is written as [null] and a property whose
    value is [undefined] is left out.  [indent] is the current
    indentation. *)
Fixpoint stringify (indent : string) (val : JValue) : option string :=
  let inner := indent ++ "  " in
  let wrap (opening closing : string) (parts : list string) :=
    match parts with
    | [] => opening ++ closing
    | _ => opening ++ newline ++ inner ++
           join ("," ++ newline ++ inner) parts ++
           newline ++ indent ++ closing
    end in
  match val with
  | JUndefined => None
  | JNull => Some "null"
  | JBool b => Some (if b then "true" else "false")
  | JNum n => Some (pretty n)
  | JStr s => Some (quote s)
  | JArr items =>
      Some (wrap "[" "]"
        ((fix elements (xs : list JValue) : list string :=
            match xs with
            | [] => []
            | x :: rest => default "null" (stringify inner x) :: elements rest
            end) items))
  | JObj fields =>
      Some (wrap "{" "}"
        ((fix properties (fs : list (string * JValue)) : list string :=
            match fs with
            | [] => []
            | (k, x) :: rest =>
                match stringify inner x with
                | Some str => (quote k ++ ": " ++ str) :: properties rest
                | None => properties rest
                end
            end) fields))
  end.

(** The call [JSON.stringify(val, null, 2)]: it returns a string or
    [undefined]; on tree-shaped values it does not throw. *)
Definition JSON_stringify (val : JValue) : Completion JValue :=
  match stringify "" val with
  | Some str => Normal (JStr str)
  | None => Normal JUndefined
  end.

(** [String(val)]: an array is its elements joined by commas, with
    [undefined] and [null] elements left empty. *)
Fixpoint js_String (val : JValue) : string :=
  match val with
  | JUndefined => "undefined"
  | JNull => "null"
  | JBool b => if b then "true" else "false"
  | JNum n => pretty n
  | JStr s => s
  | JArr items =>
      join ","
        ((fix elements (xs : list JValue) : list string :=
            match xs with
            | [] => []
            | x :: rest =>
                match x with
                | JUndefined | JNull => ""
                | _ => js_String x
                end :: elements rest
            end) items)
  | JObj _ => "[object Object]"
  end.

(** [toJSON]: "Safely stringify a value for display in a textarea."
<<
    if (typeof val === 'string') return val;
    try { return JSON.stringify(val, null, 2); }
    catch { return String(val); }
>> *)
Definition toJSON (val : JValue) : JValue :=
  if is_string val then val
  else match JSON_stringify val with
       | Normal r => r
       | Throw => JStr (js_String val)
       end.

Section HostParser.
(** [JSON.parse] of the host: the parsed value, or [Throw] for the
    [SyntaxError] raised on text that is not valid JSON. *)
Variable JSON_parse : string → Completion JValue.

(** [parseJSON]: "Try to parse a JSON string, returning the original
    string on failure."
<<
    try { return JSON.parse(str); }
    catch { return str; }
>> *)
Definition parseJSON (str : string) : JValue :=
  match JSON_parse str with
  | Normal v => v
  | Throw => JStr str
  end.
End HostParser.

(** [list.includes(v)] for a list of string literals. *)
Definition includes (l : list string) (v : JValue) : bool :=
  match v with
  | JStr s => bool_decide (s ∈ l)
  | _ => false
  end.

(** The control a form field is edited with. *)
Inductive Control : Type :=
| TextInput                       (* <input>, the value as typed *)
| NullableTextInput               (* <input>, [value || null] *)
| NumberInput (fallback : Z)      (* <input type=number>, [parseInt(value) || fallback] *)
| Select (options : list (string * string))  (* <select>: value, caption *)
| JsonArea.                       (* <textarea>, [toJSON] to show, [parseJSON] to read *)

(** A form field: the configuration key it edits, its caption, its
    control and the help text under it. *)
Record Field : Type := {
  field_key : string;
  field_caption : string;
  field_control : Control;
  field_help : string;
}.

Definition mkField (k caption : string) (c : Control) (help : string) : Field :=
  {| field_key := k; field_caption := caption; field_control := c; field_help := help |}.

Definition input_help : string :=
  "Define expected fields and their types. Supported types: string, number, boolean, array, object.".

Definition renderInputConfig (config : JValue) : list Field :=
  [mkField "schema" "Request Schema (JSON)" JsonArea input_help].

Definition db_operation_options : list (string * string) :=
  [("find", "Find (multiple)");
   ("find_one", "Find One");
   ("insert", "Insert");
   ("update", "Update");
   ("delete", "Delete")].

Definition query_help : string :=
  "Use {{variable}} for dynamic values, e.g. {" ++ quote_char ++ "name" ++ quote_char
  ++ ": " ++ quote_char ++ "{{request_data.name}}" ++ quote_char ++ "}.".

Definition renderDbQueryConfig (config : JValue) : list Field :=
  [mkField "collection" "Collection Name" TextInput "";
   mkField "operation" "Operation" (Select db_operation_options) "";
   mkField "query" "Query Filter (JSON)" JsonArea query_help]
  ++ (if includes ["insert"; "update"] (js_get config "operation")
      then [mkField "data" "Data (JSON)" JsonArea ""] else [])
  ++ (if includes ["find"] (js_get config "operation")
      then [mkField "limit" "Limit" (NumberInput 100) ""] else []).

Definition api_method_options : list (string * string) :=
  [("GET", "GET"); ("POST", "POST"); ("PUT", "PUT");
   ("DELETE", "DELETE"); ("PATCH", "PATCH")].

Definition renderApiCallConfig (config : JValue) : list Field :=
  [mkField "url" "URL" TextInput "";
   mkField "method" "Method" (Select api_method_options) "";
   mkField "headers" "Headers (JSON)" JsonArea "";
   mkField "body" "Body (JSON)" JsonArea "";
   mkField "timeout" "Timeout (seconds)" (NumberInput 30) ""].

Definition logic_help : string :=
  "Simple comparison: ==, !=, >, <, >=, <=. Use {{variable}} placeholders.".

Definition renderLogicConfig (config : JValue) : list Field :=
  [mkField "condition" "Condition" TextInput logic_help;
   mkField "true_value" "Value if True (JSON)" JsonArea "";
   mkField "false_value" "Value if False (JSON)" JsonArea ""].

Definition transform_help : string :=
  "Types: rename, pick, set, delete, template.".


Definition renderTransformConfig (config : JValue) : list Field :=
  [mkField "operations" "Operations (JSON array)" JsonArea transform_help;
   mkField "input_ref" "Input Reference (optional)" NullableTextInput ""].

Definition renderOutputConfig (config : JValue) : list Field :=
  [mkField "status_code" "Status Code" (NumberInput 200) "";
   mkField "body" "Response Body (JSON)" JsonArea
     "Use {{variable}} to include dynamic data from previous blocks.";
   mkField "headers" "Response Headers (JSON)" JsonArea ""].


(** "Map block types to their config renderers" *)
Definition configRenderers : gmap string (JValue → list Field) :=
  <["input" := renderInputConfig]> (
  <["db_query" := renderDbQueryConfig]> (
  <["api_call" := renderApiCallConfig]> (
  <["logic" := renderLogicConfig]> (
  <["transform" := renderTransformConfig]> (
  <["output" := renderOutputConfig]> ∅))))).

(** [renderConfig && renderConfig()]: the type-specific fields of the
    panel; none for a type without a renderer. *)
Definition render_fields (data_type : string) (config : JValue) : list Field :=
  match configRenderers !! data_type with
  | Some renderConfig => renderConfig config
  | None => []
  end.





(** ** WorkflowEditor.jsx: the canvas *)

(** A block of the persisted workflow.  [label], [position] and [config]
    may be missing ([JUndefined]). *)
Record Block : Type := {
  block_id : string;
  block_type : string;
  block_label : JValue;
  block_position : JValue;
  block_config : JValue;
}.

(** A connection of the persisted workflow. *)
Record Connection : Type := {
  conn_id : JValue;
  source_block_id : string;
  target_block_id : string;
  source_handle : JValue;
  target_handle : JValue;
}.

Record NodeData : Type := {
  data_type : string;
  data_label : JValue;
  data_config : JValue;
}.

(** A React Flow node.  [node_rest] holds the properties that React Flow
    keeps on a node besides the four the editor sets (selection, measured
    size, dragging state). *)
Record Node : Type := {
  node_id : string;
  node_type : string;
  node_position : JValue;
  node_data : NodeData;
  node_rest : list (string * JValue);
}.

(** A React Flow edge. *)
Record Edge : Type := {
  edge_id : JValue;
  edge_source : string;
  edge_target : string;
  sourceHandle : JValue;
  targetHandle : JValue;
  animated : bool;
  style : JValue;
  markerEnd : JValue;
}.

Definition default_position : JValue := JObj [("x", JNum 250); ("y", JNum 100)].

Definition edge_style : JValue :=
  JObj [("stroke", JStr "#6366f1"); ("strokeWidth", JNum 2)].

Definition edge_marker : JValue :=
  JObj [("type", JStr "arrowclosed"); ("color", JStr "#6366f1")].

(** [BLOCK_TYPES[type]?.label] and [BLOCK_TYPES[type]?.defaultConfig] *)
Definition type_label (type : string) : JValue :=
  match BLOCK_TYPES !! type with
  | Some meta => JStr (meta_label meta)
  | None => JUndefined
  end.

Definition type_defaultConfig (type : string) : JValue :=
  match BLOCK_TYPES !! type with
  | Some meta => defaultConfig meta
  | None => JUndefined
  end.

(** "Convert a workflow block to a React Flow node." *)
Definition blockToNode (block : Block) : Node := {|
  node_id := block_id block;
  node_type := block_type block;
  node_position := js_or (block_position block) default_position;
  node_data := {|
    data_type := block_type block;
    data_label :=
      js_or (block_label block)
            (js_or (type_label (block_type block)) (JStr "Block"));
    data_config :=
      js_or (block_config block)
            (js_or (type_defaultConfig (block_type block)) (JObj []));
  |};
  node_rest := [];
|}.

(** "Convert a workflow connection to a React Flow edge." *)
Definition connToEdge (conn : Connection) : Edge := {|
  edge_id :=
    js_or (conn_id conn)
          (JStr ("edge_" ++ source_block_id conn ++ "_" ++ target_block_id conn));
  edge_source := source_block_id conn;
  edge_target := target_block_id conn;
  sourceHandle := js_or (source_handle conn) (JStr "output");
  targetHandle := js_or (target_handle conn) (JStr "input");
  animated := true;
  style := edge_style;
  markerEnd := edge_marker;
|}.

(** [a || b] on two strings: the empty string is the one falsy string. *)
Definition str_or (a b : string) : string :=
  if String.eqb a "" then b else a.

Definition nodeToBlock (node : Node) : Block := {|
  block_id := node_id node;
  block_type := str_or (data_type (node_data node)) (node_type node);
  block_label := data_label (node_data node);
  block_position := node_position node;
  block_config := data_config (node_data node);
|}.

(** "Convert React Flow nodes back to workflow blocks." *)
Definition nodesToBlocks (rfNodes : list Node) : list Block :=
  nodeToBlock <$> rfNodes.

Definition edgeToConnection (edge : Edge) : Connection := {|
  conn_id := edge_id edge;
  source_block_id := edge_source edge;
  target_block_id := edge_target edge;
  source_handle := js_or (sourceHandle edge) (JStr "output");
  target_handle := js_or (targetHandle edge) (JStr "input");
|}.

(** "Convert React Flow edges back to workflow connections." *)
Definition edgesToConnections (rfEdges : list Edge) : list Connection :=
  edgeToConnection <$> rfEdges.

(** A value that is there: neither [undefined] nor [null]. *)
Definition present (v : JValue) : bool :=
  match v with
  | JUndefined | JNull => false
  | _ => true
  end.

(** A block whose label, position and config pass the [||] tests of
    [blockToNode]. *)
Definition block_complete (b : Block) : Prop :=
  truthy (block_label b) = true ∧
  truthy (block_position b) = true ∧
  truthy (block_config b) = true.

(** The state of the editor: the canvas and the selected node. *)
Record EditorState : Type := {
  nodes : list Node;
  edges : list Edge;
  selectedNode : option Node;
}.

(** The editor opens on the blocks and connections of the workflow. *)
Definition initial_editor (blocks : list Block) (connections : list Connection)
  : EditorState := {|
  nodes := blockToNode <$> blocks;
  edges := connToEdge <$> connections;
  selectedNode := None;
|}.

(** The update that [onUpdateConfig] applies to a node with the given id:
<<
    const updatedData = { ...node.data, config: newConfig };
    if (newLabel !== undefined) { updatedData.label = newLabel; }
    return { ...node, data: updatedData };
>> *)
Definition updated_node (newConfig newLabel : JValue) (node : Node) : Node := {|
  node_id := node_id node;
  node_type := node_type node;
  node_position := node_position node;
  node_data := {|
    data_type := data_type (node_data node);
    data_label :=
      match newLabel with
      | JUndefined => data_label (node_data node)
      | _ => newLabel
      end;
    data_config := newConfig;
  |};
  node_rest := node_rest node;
|}.

Definition update_if_selected (nodeId : string) (newConfig newLabel : JValue)
    (node : Node) : Node :=
  if String.eqb (node_id node) nodeId
  then updated_node newConfig newLabel node
  else node.

(** "Update a node's config from the config panel."  A call with two
    arguments has [newLabel = JUndefined]. *)
Definition onUpdateConfig (nodeId : string) (newConfig newLabel : JValue)
    (st : EditorState) : EditorState := {|
  nodes := update_if_selected nodeId newConfig newLabel <$> nodes st;
  edges := edges st;
  selectedNode := update_if_selected nodeId newConfig newLabel <$> selectedNode st;
|}.



(** "Save the current canvas state.": what [handleSave] hands to [onSave]. *)
Definition handleSave (st : EditorState) : list Block * list Connection :=
  (nodesToBlocks (nodes st), edgesToConnections (edges st)).

(** ** pages/EditorPage.jsx and pages/Dashboard.jsx: the workflow's status *)

Record Workflow : Type := {
  wf_name : string;
  wf_blocks : list Block;
  wf_connections : list Connection;
  wf_status : string;
}.

(** How a request to the backend ends for the awaiting handler. *)
Inductive ApiResult (A : Type) : Type :=
| Resolved (data : A)
| Rejected.
Arguments Resolved {A} data.
Arguments Rejected {A}.

(** [loadWorkflow]: [setWorkflow(data)] once [getWorkflow] resolves. *)
Definition page_loadWorkflow (r : ApiResult Workflow) (prev : option Workflow)
  : option Workflow :=
  match r with
  | Resolved data => Some data
  | Rejected => prev
  end.

(** [handleSave]: [{ ...prev, blocks, connections }] *)
Definition page_handleSave (blocks : list Block) (connections : list Connection)
    (r : ApiResult unit) (prev : Workflow) : Workflow :=
  match r with
  | Resolved _ =>
      {| wf_name := wf_name prev; wf_blocks := blocks;
         wf_connections := connections; wf_status := wf_status prev |}
  | Rejected => prev
  end.

(** [handleDeploy]: [{ ...prev, status: 'deployed' }] *)
Definition page_handleDeploy (r : ApiResult unit) (prev : Workflow) : Workflow :=
  match r with
  | Resolved _ =>
      {| wf_name := wf_name prev; wf_blocks := wf_blocks prev;
         wf_connections := wf_connections prev; wf_status := "deployed" |}
  | Rejected => prev
  end.

(** [handleUndeploy]: [{ ...prev, status: 'draft' }] *)
Definition page_handleUndeploy (r : ApiResult unit) (prev : Workflow) : Workflow :=
  match r with
  | Resolved _ =>
      {| wf_name := wf_name prev; wf_blocks := wf_blocks prev;
         wf_connections := wf_connections prev; wf_status := "draft" |}
  | Rejected => prev
  end.

(** What the user and the backend can make happen on the editor page. *)
Inductive PageEvent : Type :=
| Load (r : ApiResult Workflow)
| Save (blocks : list Block) (connections : list Connection) (r : ApiResult unit)
| Deploy (r : ApiResult unit)
| Undeploy (r : ApiResult unit).

(** The page's [workflow] state after an event.  The editor with its Save,
    Deploy and Undeploy buttons is drawn only once a workflow is loaded. *)
Definition page_step (ev : PageEvent) (workflow : option Workflow)
  : option Workflow :=
  match ev with
  | Load r => page_loadWorkflow r workflow
  | Save blocks connections r => page_handleSave blocks connections r <$> workflow
  | Deploy r => page_handleDeploy r <$> workflow
  | Undeploy r => page_handleUndeploy r <$> workflow
  end.

Definition page_run (evs : list PageEvent) (workflow : option Workflow)
  : option Workflow :=
  foldl (λ w ev, page_step ev w) workflow evs.

(** The request a toggle of the dashboard sends ([handleToggleDeploy]), and
    which button the editor's toolbar offers. *)
Inductive DeployRequest : Type := RequestDeploy | RequestUndeploy.

Definition handleToggleDeploy (currentStatus : string) : DeployRequest :=
  if String.eqb currentStatus "deployed" then RequestUndeploy else RequestDeploy.

(** The badge of the editor's toolbar: [workflow?.status || 'draft']. *)
Definition toolbar_status (workflow : option Workflow) : string :=
  match workflow with
  | Some w => str_or (wf_status w) "draft"
  | None => "draft"
  end.

(** The two statuses a workflow has. *)
Definition valid_status (status : string) : Prop :=
  status = "draft" ∨ status = "deployed".

Definition page_valid (workflow : option Workflow) : Prop :=
  ∀ w, workflow = Some w → valid_status (wf_status w).

(** A load hands over what the backend stores. *)
Definition event_from_store (ev : PageEvent) : Prop :=
  match ev with
  | Load (Resolved data) => valid_status (wf_status data)
  | _ => True
  end.

(** ** The execution engine: the graph planner

    The engine runs on the server; what follows is its planner as the
    specification describes it, over the persisted [Block]s and
    [Connection]s.  A block is of the respond kind when its type is
    [output]. *)

Inductive GraphErrorKind : Type :=
| Cycle (offending : string)
| DanglingEdge
| NoResponse.

Inductive PlanResult : Type :=
| Levels (levels : list (list string))
| GraphError (kind : GraphErrorKind).

Definition block_ids (blocks : list Block) : list string := block_id <$> blocks.

Definition is_respond (b : Block) : bool :=
  bool_decide (block_type b = kind_type respond).

(** Modelled from the spec: the dangling-reference test of the planner
    (the engine's source is not part of the editor's sources): "a
    connection names a block id absent from the block list". *)
Definition dangling (ids : list string) (c : Connection) : bool :=
  negb (bool_decide (source_block_id c ∈ ids ∧ target_block_id c ∈ ids)).

(** Modelled from the spec: the planner's "in-degree count per block",
    zero for every block and one more for each connection into it. *)
Definition indegree_init (ids : list string) (connections : list Connection)
  : gmap string nat :=
  foldl (λ m c, alter S (target_block_id c) m)
        (foldr (λ b m, <[b := 0]> m) ∅ ids)
        connections.

(** Modelled from the spec: the planner's "adjacency representation",
    the successors of every block in the order of the connections. *)
Definition adjacency (ids : list string) (connections : list Connection)
  : gmap string (list string) :=
  foldl (λ m c, alter (λ succ, (succ ++ [target_block_id c])%list) (source_block_id c) m)
        (foldr (λ b m, <[b := []]> m) ∅ ids)
        connections.

(** Modelled from the spec: "collect the set of blocks with in-degree
    zero", among the blocks not yet placed in a level. *)
Definition ready (indeg : gmap string nat) (remaining : list string) : list string :=
  filter (λ b, indeg !! b = Some 0) remaining.

(** Modelled from the spec: "decrement in-degree of their successors",
    once for every connection that leaves a block of the level. *)
Definition release (adj : gmap string (list string)) (level : list string)
    (indeg : gmap string nat) : gmap string nat :=
  foldl (λ m b, foldl (λ m' t, alter Nat.pred t m') m (default [] (adj !! b)))
        indeg level.

(** Modelled from the spec: the rounds of Kahn's algorithm "with all
    indegree-zero nodes per round treated as one parallel level".  A round
    with no ready block ends the loop; the result is the levels formed and
    the blocks left over.  Every round but the last places a block, so
    [fuel] rounds are all the loop can make when [fuel] is the number of
    blocks not yet placed. *)
Fixpoint rounds (fuel : nat) (adj : gmap string (list string))
    (indeg : gmap string nat) (remaining : list string)
  : list (list string) * list string :=
  match fuel with
  | O => ([], remaining)
  | S fuel' =>
      match ready indeg remaining with
      | [] => ([], remaining)
      | level =>
          let '(levels, rest) :=
            rounds fuel' adj (release adj level indeg)
                   (list_difference remaining level) in
          (level :: levels, rest)
      end
  end.

(** Modelled from the spec: [plan(blocks, connections)], "ordered levels
    or a structural error" ([DanglingEdge], [NoResponse], or [Cycle]
    "naming one offending block" when "some blocks remain with nonzero
    in-degree"). *)
Definition plan (blocks : list Block) (connections : list Connection) : PlanResult :=
  let ids := block_ids blocks in
  if existsb (dangling ids) connections then GraphError DanglingEdge
  else if negb (existsb is_respond blocks) then GraphError NoResponse
  else
    match rounds (length ids) (adjacency ids connections)
                 (indegree_init ids connections) ids with
    | (levels, []) => Levels levels
    | (_, b :: _) => GraphError (Cycle b)
    end.

(** The index of the level that holds a block. *)
Fixpoint level_of (levels : list (list string)) (b : string) : option nat :=
  match levels with
  | [] => None
  | level :: rest =>
      if bool_decide (b ∈ level) then Some 0 else S <$> level_of rest b
  end.

(** The graph of a workflow: an edge for every connection, and what it
    means for it to have no cycle and no dangling edge. *)
Definition edge (connections : list Connection) (s t : string) : Prop :=
  ∃ c, c ∈ connections ∧ source_block_id c = s ∧ target_block_id c = t.

Definition acyclic (connections : list Connection) : Prop :=
  ∀ b, ¬ tc (edge connections) b b.

Definition well_formed (blocks : list Block) (connections : list Connection) : Prop :=
  NoDup (block_ids blocks) ∧
  ∀ c, c ∈ connections →
       source_block_id c ∈ block_ids blocks ∧ target_block_id c ∈ block_ids blocks.

Definition has_respond (blocks : list Block) : Prop :=
  ∃ b, b ∈ blocks ∧ block_type b = kind_type respond.

(** *** The planner's invariant *)

(** The successors of a block: the targets of the connections that leave
    it, in the order of the connections. *)
Definition successors (connections : list Connection) (b : string) : list string :=
  target_block_id <$> filter (λ c, source_block_id c = b) connections.

(** The connections into [v] that come from a block of [sources]. *)
Definition incoming (connections : list Connection) (sources : list string)
    (v : string) : list Connection :=
  filter (λ c, target_block_id c = v ∧ source_block_id c ∈ sources) connections.

(** The in-degree counts agree with the graph cut down to the blocks that
    are not yet placed. *)
Definition counts_agree (connections : list Connection)
    (indeg : gmap string nat) (remaining : list string) : Prop :=
  ∀ v, v ∈ remaining → indeg !! v = Some (length (incoming connections remaining v)).

(** ** The execution engine: condition evaluation *)

Inductive CompareOp : Type := OpEq | OpNe | OpGt | OpLt | OpGe | OpLe.

#[global] Instance CompareOp_eq_dec : EqDecision CompareOp.
Proof. solve_decision. Defined.


(** [strip_prefix p s]: what follows [p] in [s], when [s] starts with [p]. *)
Fixpoint strip_prefix (p s : string) : option string :=
  match p, s with
  | EmptyString, _ => Some s
  | String a p', String b s' => if Ascii.eqb a b then strip_prefix p' s' else None
  | String _ _, EmptyString => None
  end.














Section Resolver.
(** The resolver of the engine against the execution context of the
    invocation: of a text, and of a configuration value. *)
Variable resolve : string → JValue.
Variable resolve_value : JValue → JValue.


End Resolver.

(** ** What the specification says of the configuration shapes

    These follow the specification's words, to be compared with the
    editor's tables above. *)









(** ** Workflows and values for the examples *)

(** A block with every field there and an empty label, and a connection
    that was stored without an id. *)
Definition unlabelled_block : Block :=
  {| block_id := "block_1"; block_type := "db_query"; block_label := JStr "";
     block_position := JObj [("x", JNum 40); ("y", JNum 80)];
     block_config := JObj [("collection", JStr "users")] |}.

Definition unnamed_connection : Connection :=
  {| conn_id := JUndefined; source_block_id := "block_1";
     target_block_id := "block_2";
     source_handle := JStr "output"; target_handle := JStr "input" |}.

(** A block as the editor saves it, and a stored workflow. *)
Definition saved_block : Block :=
  {| block_id := "block_2"; block_type := "output"; block_label := JStr "Reply";
     block_position := JObj [("x", JNum 40); ("y", JNum 240)];
     block_config := JObj [("status_code", JNum 200)] |}.

Definition saved_connection : Connection :=
  {| conn_id := JStr "edge_block_1_block_2"; source_block_id := "block_1";
     target_block_id := "block_2";
     source_handle := JStr "output"; target_handle := JStr "input" |}.

Definition stored_workflow : Workflow :=
  {| wf_name := "users-api"; wf_blocks := [saved_block];
     wf_connections := []; wf_status := "draft" |}.

(** A small workflow: input, then a query and a call side by side, then a
    transform fed by both, then the output. *)
Definition mk_block (id type : string) : Block :=
  {| block_id := id; block_type := type; block_label := JUndefined;
     block_position := JUndefined; block_config := JUndefined |}.

Definition mk_conn (s t : string) : Connection :=
  {| conn_id := JUndefined; source_block_id := s; target_block_id := t;
     source_handle := JUndefined; target_handle := JUndefined |}.

Definition diamond_blocks : list Block :=
  [mk_block "out" "output"; mk_block "t" "transform"; mk_block "db" "db_query";
   mk_block "api" "api_call"; mk_block "in" "input"].

Definition diamond_connections : list Connection :=
  [mk_conn "t" "out"; mk_conn "in" "db"; mk_conn "in" "api";
   mk_conn "db" "t"; mk_conn "api" "t"].

(** A rank that grows along every connection of the small workflow. *)
Definition diamond_rank (b : string) : nat :=
  if String.eqb b "in" then 0
  else if String.eqb b "db" then 1
  else if String.eqb b "api" then 1
  else if String.eqb b "t" then 2
  else 3.


(** * The rest of the editor's code *)

(** ** pages/EditorPage.jsx: escaping the exported code *)

(** [str.replace(/c/g, replacement)] for a pattern of one literal
    character and a replacement without [$]: every occurrence, from left
    to right. *)
Fixpoint replace_all (c : ascii) (replacement : string) (str : string) : string :=
  match str with
  | EmptyString => EmptyString
  | String a rest =>
      (if Ascii.eqb a c then replacement else String a EmptyString)
      ++ replace_all c replacement rest
  end.

(** "Escape HTML for safe rendering."
<<
    str.replace(/&/g, '&amp;').replace(/</g, '&lt;').replace(/>/g, '&gt;')
>> *)
Definition escapeHtml (str : string) : string :=
  replace_all ">" "&gt;" (replace_all "<" "&lt;" (replace_all "&" "&amp;" str)).

(** Whether a character occurs in a text. *)
Fixpoint occurs (c : ascii) (s : string) : bool :=
  match s with
  | EmptyString => false
  | String a rest => Ascii.eqb a c || occurs c rest
  end.

(** ** WorkflowEditor.jsx: new nodes and edges *)







(** The own enumerable properties that [{ ...v }] copies: the fields of an
    object, the elements of an array under their indices, the characters
    of a text under theirs (a character is a byte here), none for the
    other values. *)
Definition own_fields (v : JValue) : list (string * JValue) :=
  match v with
  | JObj fields => fields
  | JArr items => imap (λ i x, (pretty i, x)) items
  | JStr s => imap (λ i c, (pretty i, JStr (String c EmptyString))) (String.list_ascii_of_string s)
  | _ => []
  end.

(** [{ ...fields, [key]: value }]: a key that is there keeps its place and
    takes the value, a new key comes last. *)
Fixpoint set_field (key : string) (value : JValue) (fields : list (string * JValue))
  : list (string * JValue) :=
  match fields with
  | [] => [(key, value)]
  | (k, v) :: rest =>
      if String.eqb k key then (k, value) :: rest
      else (k, v) :: set_field key value rest
  end.

(** The node that [onDrop] makes for a block type of the table:
<<
    { id: generateId(), type: blockType, position,
      data: { type: blockType, label: blockMeta.label,
              config: { ...blockMeta.defaultConfig } } }
>> *)
Definition dropped_node (id blockType : string) (position : JValue)
    (blockMeta : BlockMeta) : Node := {|
  node_id := id;
  node_type := blockType;
  node_position := position;
  node_data := {|
    data_type := blockType;
    data_label := JStr (meta_label blockMeta);
    data_config := JObj (own_fields (defaultConfig blockMeta));
  |};
  node_rest := [];
|}.


(** The edge that [onConnect] hands to [addEdge] for a connection drawn
    from [source] to [target]:
<<
    { ...params, id: `edge_${params.source}_${params.target}`,
      animated: true, style: ..., markerEnd: ... }
>> *)
Definition onConnect_edge (source target : string) (source_h target_h : JValue)
  : Edge := {|
  edge_id := JStr ("edge_" ++ source ++ "_" ++ target);
  edge_source := source;
  edge_target := target;
  sourceHandle := source_h;
  targetHandle := target_h;
  animated := true;
  style := edge_style;
  markerEnd := edge_marker;
|}.


(** The label that two calls of [onUpdateConfig] for one node leave: the
    later one when it is given. *)
Definition later_label (l1 l2 : JValue) : JValue :=
  match l2 with
  | JUndefined => l1
  | _ => l2
  end.


(** ** ConfigPanel.jsx: what the controls show and store *)

(** The panel's [config] once it is synchronised with the selected node:
    [selectedNode.data?.config || {}]. *)
Definition panel_config (selected : Node) : JValue :=
  js_or (data_config (node_data selected)) (JObj []).

(** [updateField]: "Update a config field and notify the parent."
<<
    const updated = { ...config, [field]: value };
    setConfig(updated);
    onUpdateConfig(selectedNode.id, updated);
>> *)
Definition updated_config (config : JValue) (field : string) (value : JValue)
  : JValue :=
  JObj (set_field field value (own_fields config)).


(** The label input: [onUpdateConfig(selectedNode.id, config, e.target.value)]. *)
Definition onLabelChange (selected : Node) (text : string) (st : EditorState)
  : EditorState :=
  onUpdateConfig (node_id selected) (panel_config selected) (JStr text) st.

(** The white space that [parseInt] and [trim] skip and that [\s]
    matches, among the ASCII characters: tab, line feed, vertical tab,
    form feed, carriage return and space. *)
Definition is_space (c : ascii) : bool :=
  let n := nat_of_ascii c in
  ((9 <=? n) && (n <=? 13) || (n =? 32))%nat.



Fixpoint skip_spaces (s : string) : string :=
  match s with
  | EmptyString => EmptyString
  | String c rest => if is_space c then skip_spaces rest else s
  end.





(** The value that the operation select of the database form shows:
    [config.operation || 'find']. *)
Definition shown_operation (config : JValue) : JValue :=
  js_or (js_get config "operation") (JStr "find").

(** ** nodes/CustomNodes.jsx: what a node shows *)


(** ** pages/Dashboard.jsx *)

(** The numbers of the quick stats: all workflows, the deployed ones
    ([w.status === 'deployed']) and the drafts. *)
Definition count_status (status : string) (workflows : list Workflow) : nat :=
  length (filter (λ w, wf_status w = status) workflows).

Definition stats (workflows : list Workflow) : nat * nat * nat :=
  (length workflows, count_status "deployed" workflows,
   count_status "draft" workflows).

(** [str.trim()], on texts of ASCII characters. *)
Fixpoint trim_end (s : string) : string :=
  match s with
  | EmptyString => EmptyString
  | String c rest =>
      match trim_end rest with
      | EmptyString => if is_space c then EmptyString else String c EmptyString
      | rest' => String c rest'
      end
  end.

Definition trim (s : string) : string := trim_end (skip_spaces s).

(** [str.replace(/\s+/g, '-')]: every run of white space becomes one
    hyphen.  [in_run] says that the character before was white space. *)
Fixpoint hyphenate_from (in_run : bool) (s : string) : string :=
  match s with
  | EmptyString => EmptyString
  | String c rest =>
      if is_space c
      then (if in_run then hyphenate_from true rest
            else String "-" (hyphenate_from true rest))
      else String c (hyphenate_from false rest)
  end.

Definition hyphenate (s : string) : string := hyphenate_from false s.

(** [str.toLowerCase()], on texts of ASCII characters. *)
Definition lower_char (c : ascii) : ascii :=
  let n := nat_of_ascii c in
  if ((65 <=? n) && (n <=? 90))%nat then ascii_of_nat (n + 32) else c.

Fixpoint toLowerCase (s : string) : string :=
  match s with
  | EmptyString => EmptyString
  | String c rest => String (lower_char c) (toLowerCase rest)
  end.

Definition is_upper (c : ascii) : bool :=
  let n := nat_of_ascii c in ((65 <=? n) && (n <=? 90))%nat.

(** Whether a text holds a character of a kind. *)
Fixpoint any_char (p : ascii → bool) (s : string) : bool :=
  match s with
  | EmptyString => false
  | String c rest => p c || any_char p rest
  end.

(** [handleCreate]: the name under which a workflow is created,
    [newName.trim().replace(/\s+/g, '-').toLowerCase()], or nothing when
    the guard [if (!newName.trim() || creating) return] stops it. *)
Definition created_name (newName : string) : string :=
  toLowerCase (hyphenate (trim newName)).

Definition handleCreate (newName : string) (creating : bool) : option string :=
  if String.eqb (trim newName) "" || creating then None
  else Some (created_name newName).

(** ** services/api.js: the requests of the client *)





(** ** Sequences of drops, for the statements about them *)


Definition node_ids (st : EditorState) : list string := node_id <$> nodes st.




(** A text of ASCII characters, on which [trim], [\s] and [toLowerCase]
    are as modelled here. *)
Definition ascii_text (s : string) : Prop :=
  any_char (λ c, (128 <=? nat_of_ascii c)%nat) s = false.

(** * Theorems *)

(** ** The block kinds *)

Lemma kind_type_inj : Inj (=) (=) kind_type.
Proof. intros [] [] H; (reflexivity || discriminate H). Qed.





(** A type string outside the six has no entry to dispatch on: the node is
    drawn with the metadata of the input block, and the panel shows no
    form for it. *)
Lemma unknown_type_dispatch (type : string) (config : JValue) :
  type ∉ BLOCK_ORDER →
  BLOCK_TYPES !! type = None ∧ nodeTypes !! type = None ∧
  node_meta type = input_meta ∧ render_fields type config = [].
Proof.
  intros Hout.
  assert (∀ {A} (table : gmap string A),
            dom table = list_to_set BLOCK_ORDER → table !! type = None) as Hnone.
  { intros A table Hdom. apply not_elem_of_dom. rewrite Hdom.
    by rewrite elem_of_list_to_set. }
  assert (BLOCK_TYPES !! type = None) as Hb by (apply Hnone; vm_compute; reflexivity).
  split_and!.
  - exact Hb.
  - apply Hnone. vm_compute. reflexivity.
  - unfold node_meta. by rewrite Hb.
  - unfold render_fields. rewrite Hnone; [done|]. vm_compute. reflexivity.
Qed.

(** ** The database query form *)

Lemma includes_spec (l : list string) (v : JValue) :
  includes l v = true ↔ ∃ s, v = JStr s ∧ s ∈ l.
Proof.
  unfold includes. destruct v; try (split; [discriminate|intros (?&?&?); discriminate]).
  rewrite bool_decide_eq_true. split; [eauto|]. by intros (?&[= ->]&?).
Qed.

Lemma includes_insert_update (v : JValue) :
  includes ["insert"; "update"] v = true ↔ v = JStr "insert" ∨ v = JStr "update".
Proof.
  rewrite includes_spec. split.
  - intros (s & -> & Hin).
    apply elem_of_cons in Hin as [->|Hin]; [by left|].
    apply elem_of_cons in Hin as [->|Hin]; [by right|].
    by apply elem_of_nil in Hin.
  - intros [-> | ->]; eexists; (split; [reflexivity|compute_done]).
Qed.

Lemma includes_find (v : JValue) :
  includes ["find"] v = true ↔ v = JStr "find".
Proof.
  rewrite includes_spec. split.
  - intros (s & -> & Hin).
    apply elem_of_cons in Hin as [->|Hin]; [done|].
    by apply elem_of_nil in Hin.
  - intros ->; eexists; (split; [reflexivity|compute_done]).
Qed.

(** C3: the operation of a database query block is chosen among exactly
    find, find_one, insert, update and delete, and the block's
    configuration has the keys collection, operation, query, data and
    limit: the form always edits collection, operation and query, edits
    data only for insert and update, and limit only for find. *)
Theorem db_query_config_shape :
  db_operation_options.*1 = ["find"; "find_one"; "insert"; "update"; "delete"] ∧
  NoDup db_operation_options.*1 ∧
  BLOCK_TYPES !! "db_query" = Some db_query_meta ∧
  keys (defaultConfig db_query_meta)
    = ["collection"; "operation"; "query"; "data"; "limit"] ∧
  includes db_operation_options.*1
           (js_get (defaultConfig db_query_meta) "operation") = true ∧
  (∀ config : JValue,
     let shown := field_key <$> render_fields "db_query" config in
     (∀ f, f ∈ render_fields "db_query" config → field_key f = "operation" →
           field_control f = Select db_operation_options) ∧
     take 3 shown = ["collection"; "operation"; "query"] ∧
     shown ⊆ keys (defaultConfig db_query_meta) ∧
     ("data" ∈ shown ↔
        js_get config "operation" = JStr "insert" ∨
        js_get config "operation" = JStr "update") ∧
     ("limit" ∈ shown ↔ js_get config "operation" = JStr "find")).
Proof.
  split_and!; try reflexivity.
  - compute_done.
  - intros config shown. subst shown.
    change (render_fields "db_query" config) with (renderDbQueryConfig config).
    rewrite <- includes_insert_update, <- includes_find.
    unfold renderDbQueryConfig.
    destruct (includes ["insert"; "update"] (js_get config "operation"));
      destruct (includes ["find"] (js_get config "operation"));
      (split_and!;
       [ intros f Hin Hk; simpl in Hin;
         repeat (apply elem_of_cons in Hin as [->|Hin];
                 [first [discriminate Hk | reflexivity]|]);
         by apply elem_of_nil in Hin
       | reflexivity
       | compute_done
       | compute_done
       | compute_done ]).
Qed.

(** ** The transform and intake forms *)





(** ** The status of a workflow *)

Lemma page_step_valid (ev : PageEvent) (workflow : option Workflow) :
  event_from_store ev → page_valid workflow → page_valid (page_step ev workflow).
Proof.
  intros Hev Hvalid w' Hw'. destruct ev as [r|blocks connections r|r|r]; simpl in *.
  - destruct r as [data|]; simpl in Hw'.
    + by injection Hw' as <-.
    + by apply Hvalid.
  - destruct workflow as [w|]; [|discriminate]. injection Hw' as <-.
    destruct r; simpl; by apply Hvalid.
  - destruct workflow as [w|]; [|discriminate]. injection Hw' as <-.
    destruct r; simpl; [by right | by apply Hvalid].
  - destruct workflow as [w|]; [|discriminate]. injection Hw' as <-.
    destruct r; simpl; [by left | by apply Hvalid].
Qed.

Lemma page_run_valid (evs : list PageEvent) (workflow : option Workflow) :
  Forall event_from_store evs → page_valid workflow →
  page_valid (page_run evs workflow).
Proof.
  intros Hevs. revert workflow.
  induction Hevs as [|ev evs Hev _ IH]; intros workflow Hvalid; [done|].
  apply IH. by apply page_step_valid.
Qed.

(** C7: a workflow's status is draft or deployed, and stays so under every
    event of the editor page (load, save, deploy, undeploy, each of which
    may succeed or fail): a deploy that succeeds sets it to deployed, an
    undeploy that succeeds sets it to draft, a save and every failed
    request leave it as it was. *)
Theorem status_invariant (evs : list PageEvent) (workflow : option Workflow) :
  Forall event_from_store evs →
  page_valid workflow →
  page_valid (page_run evs workflow) ∧
  valid_status (toolbar_status (page_run evs workflow)) ∧
  (∀ w, wf_status (page_handleDeploy (Resolved ()) w) = "deployed") ∧
  (∀ w, wf_status (page_handleUndeploy (Resolved ()) w) = "draft") ∧
  (∀ w blocks connections r,
     wf_status (page_handleSave blocks connections r w) = wf_status w) ∧
  (∀ w, wf_status (page_handleDeploy Rejected w) = wf_status w ∧
        wf_status (page_handleUndeploy Rejected w) = wf_status w).
Proof.
  intros Hevs Hvalid.
  pose proof (page_run_valid evs workflow Hevs Hvalid) as Hrun.
  split_and!.
  - exact Hrun.
  - destruct (page_run evs workflow) as [w|]; [|by left].
    destruct (Hrun w eq_refl) as [Hw|Hw]; simpl; rewrite Hw; [by left|by right].
  - reflexivity.
  - reflexivity.
  - intros w blocks connections []; reflexivity.
  - intros w. split; reflexivity.
Qed.

(** The dashboard asks to undeploy a deployed workflow and to deploy any
    other. *)
Lemma toggle_requests (currentStatus : string) :
  handleToggleDeploy currentStatus
    = if decide (currentStatus = "deployed") then RequestUndeploy else RequestDeploy.
Proof.
  unfold handleToggleDeploy.
  destruct (String.eqb_spec currentStatus "deployed"); by case_decide.
Qed.

(** A stored draft that is loaded, deployed, saved, and whose undeploy
    fails, has a valid status. *)
Lemma status_invariant_witness :
  page_valid
    (page_run [Load (Resolved stored_workflow); Deploy (Resolved ());
               Save [saved_block] [saved_connection] (Resolved ());
               Undeploy Rejected]
              None).
Proof.
  refine (proj1 (status_invariant _ None _ _)).
  - repeat constructor.
  - intros w Hw. discriminate Hw.
Defined.

(** ** The canvas conversions *)

(** C8 (as stated): a block whose label, position and config are all there
    does not come back with its label when the label is empty, and a
    connection stored without an id comes back with one. *)
Lemma roundtrip_changes_empty_label :
  present (block_label unlabelled_block) = true ∧
  present (block_position unlabelled_block) = true ∧
  present (block_config unlabelled_block) = true ∧
  block_label <$> nodesToBlocks (blockToNode <$> [unlabelled_block])
    = [JStr "Database Query"] ∧
  conn_id <$> edgesToConnections (connToEdge <$> [unnamed_connection])
    = [JStr "edge_block_1_block_2"].
Proof. split_and!; reflexivity. Qed.

Lemma js_or_truthy (a b : JValue) : truthy a = true → js_or a b = a.
Proof. unfold js_or. by intros ->. Qed.


Lemma str_or_same (a : string) : str_or a a = a.
Proof. unfold str_or. by destruct (String.eqb a ""). Qed.

Lemma block_roundtrip (b : Block) :
  block_complete b → nodeToBlock (blockToNode b) = b.
Proof.
  intros (Hl & Hp & Hc). destruct b as [i t l p c]; simpl in *.
  unfold nodeToBlock, blockToNode; simpl.
  by rewrite str_or_same, !js_or_truthy.
Qed.

(** C8 (amended): for blocks whose label is a non-empty text and whose
    position and config are there (truthy, as [||] tests them),
    [nodesToBlocks] after [blockToNode] gives back the blocks, with their
    id, type, label, position and config; id and type come back for every
    block, and a label, position or config that is missing or empty comes
    back as its default.  [edgesToConnections] after [connToEdge] gives back the source
    and the target of every connection, and its id when that is there and
    not empty; otherwise the id becomes edge_<source>_<target>. *)
Theorem canvas_roundtrip (blocks : list Block) (connections : list Connection) :
  Forall block_complete blocks →
  nodesToBlocks (blockToNode <$> blocks) = blocks ∧
  (∀ b, block_id (nodeToBlock (blockToNode b)) = block_id b ∧
        block_type (nodeToBlock (blockToNode b)) = block_type b ∧
        block_label (nodeToBlock (blockToNode b))
          = (if truthy (block_label b) then block_label b
             else js_or (type_label (block_type b)) (JStr "Block")) ∧
        block_position (nodeToBlock (blockToNode b))
          = (if truthy (block_position b) then block_position b
             else default_position) ∧
        block_config (nodeToBlock (blockToNode b))
          = (if truthy (block_config b) then block_config b
             else js_or (type_defaultConfig (block_type b)) (JObj []))) ∧
  source_block_id <$> edgesToConnections (connToEdge <$> connections)
    = source_block_id <$> connections ∧
  target_block_id <$> edgesToConnections (connToEdge <$> connections)
    = target_block_id <$> connections ∧
  (∀ c, conn_id (edgeToConnection (connToEdge c))
        = if truthy (conn_id c) then conn_id c
          else JStr ("edge_" ++ source_block_id c ++ "_" ++ target_block_id c)).
Proof.
  intros Hblocks. split_and!.
  - unfold nodesToBlocks. rewrite <- list_fmap_compose.
    induction Hblocks as [|b blocks Hb _ IH]; [done|].
    simpl. f_equal; [by apply block_roundtrip | done].
  - intros b. split_and!; try reflexivity. simpl. apply str_or_same.
  - unfold edgesToConnections. rewrite <- !list_fmap_compose.
    by apply list_fmap_ext.
  - unfold edgesToConnections. rewrite <- !list_fmap_compose.
    by apply list_fmap_ext.
  - intros c. reflexivity.
Qed.

(** A block as the editor saves it comes back as it was. *)
Lemma canvas_roundtrip_witness :
  nodesToBlocks (blockToNode <$> [saved_block]) = [saved_block].
Proof.
  refine (proj1 (canvas_roundtrip [saved_block] [saved_connection] _)).
  repeat constructor.
Defined.

(** ** Configuration updates *)

Lemma update_if_selected_other (nodeId : string) (newConfig newLabel : JValue)
    (node : Node) :
  node_id node ≠ nodeId → update_if_selected nodeId newConfig newLabel node = node.
Proof.
  intros Hne. unfold update_if_selected.
  destruct (String.eqb_spec (node_id node) nodeId); [contradiction|reflexivity].
Qed.

Lemma update_if_selected_same (nodeId : string) (newConfig newLabel : JValue)
    (node : Node) :
  node_id node = nodeId →
  update_if_selected nodeId newConfig newLabel node
    = updated_node newConfig newLabel node.
Proof.
  intros He. unfold update_if_selected.
  destruct (String.eqb_spec (node_id node) nodeId); [reflexivity|contradiction].
Qed.

Lemma update_if_selected_frame (nodeId : string) (newConfig newLabel : JValue)
    (node : Node) :
  let node' := update_if_selected nodeId newConfig newLabel node in
  node_id node' = node_id node ∧
  node_type node' = node_type node ∧
  node_position node' = node_position node ∧
  node_rest node' = node_rest node ∧
  data_type (node_data node') = data_type (node_data node).
Proof.
  unfold update_if_selected.
  destruct (String.eqb (node_id node) nodeId); simpl; split_and!; reflexivity.
Qed.

(** C9: [onUpdateConfig] leaves the edges alone, treats the panel's copy
    of the selected node like the nodes, and keeps the nodes in place; a node with another id is unchanged; a node with the given id
    keeps its id, type, position, its other properties and its data's
    type, its data's config becomes the new config, and its data's label
    becomes the new label when one is given and stays otherwise. *)
Theorem onUpdateConfig_frame (nodeId : string) (newConfig newLabel : JValue)
    (st : EditorState) :
  let st' := onUpdateConfig nodeId newConfig newLabel st in
  edges st' = edges st ∧
  selectedNode st'
    = update_if_selected nodeId newConfig newLabel <$> selectedNode st ∧
  length (nodes st') = length (nodes st) ∧
  (∀ i, node_id <$> nodes st' !! i = node_id <$> nodes st !! i) ∧
  (∀ i node, nodes st !! i = Some node →
     ∃ node', nodes st' !! i = Some node' ∧
       node_id node' = node_id node ∧
       node_type node' = node_type node ∧
       node_position node' = node_position node ∧
       node_rest node' = node_rest node ∧
       data_type (node_data node') = data_type (node_data node) ∧
       (node_id node ≠ nodeId → node' = node) ∧
       (node_id node = nodeId →
          data_config (node_data node') = newConfig ∧
          (newLabel = JUndefined →
             data_label (node_data node') = data_label (node_data node)) ∧
          (newLabel ≠ JUndefined → data_label (node_data node') = newLabel))).
Proof.
  simpl. split_and!.
  - reflexivity.
  - reflexivity.
  - apply length_fmap.
  - intros i. rewrite list_lookup_fmap.
    destruct (nodes st !! i) as [node|]; simpl; [|reflexivity].
    f_equal. apply update_if_selected_frame.
  - intros i node Hi.
    exists (update_if_selected nodeId newConfig newLabel node).
    rewrite list_lookup_fmap, Hi.
    destruct (update_if_selected_frame nodeId newConfig newLabel node)
      as (H1 & H2 & H3 & H4 & H5).
    split_and!; try done.
    + apply update_if_selected_other.
    + intros He. rewrite (update_if_selected_same _ _ _ _ He). simpl.
      split_and!; [reflexivity| by intros -> |].
      intros Hl. by destruct newLabel.
Qed.

(** ** The JSON helpers of the panel *)



(** [parseJSON] gives the parsed value of valid JSON and the text itself
    otherwise. *)
Lemma parseJSON_total (JSON_parse : string → Completion JValue) (str : string) :
  (∀ v, JSON_parse str = Normal v → parseJSON JSON_parse str = v) ∧
  (JSON_parse str = Throw → parseJSON JSON_parse str = JStr str).
Proof. unfold parseJSON. split; [intros v ->|intros ->]; reflexivity. Qed.

(** C10: on [undefined], the value of a configuration key that is not
    set, [toJSON] does not give a text: it gives [undefined]. *)
Theorem toJSON_undefined :
  toJSON JUndefined = JUndefined ∧
  is_string (toJSON JUndefined) = false ∧
  toJSON (js_get (JObj []) "query") = JUndefined.
Proof. split_and!; reflexivity. Qed.

(** ** Condition evaluation *)


Lemma strip_prefix_app (p s : string) : strip_prefix p (p ++ s) = Some s.
Proof.
  induction p as [|a p IH]; simpl; [reflexivity|].
  by rewrite Ascii.eqb_refl.
Qed.







(** ** The planner *)

(** *** Counting with filters *)

Lemma length_filter_split {A} (P Q PQ : A → Prop)
    `{∀ x, Decision (P x)} `{∀ x, Decision (Q x)} `{∀ x, Decision (PQ x)}
    (l : list A) :
  (∀ x, PQ x ↔ P x ∨ Q x) → (∀ x, P x → Q x → False) →
  length (filter PQ l) = length (filter P l) + length (filter Q l).
Proof.
  intros Hor Hdisj. induction l as [|x l IH]; [reflexivity|].
  rewrite !filter_cons.
  destruct (decide (PQ x)) as [Hpq|Hpq], (decide (P x)) as [Hp|Hp],
           (decide (Q x)) as [Hq|Hq]; simpl; rewrite ?IH; try lia.
  - destruct (Hdisj x Hp Hq).
  - apply Hor in Hpq as [?|?]; contradiction.
  - destruct Hpq. apply Hor. by left.
  - destruct Hpq. apply Hor. by left.
  - destruct Hpq. apply Hor. by right.
Qed.

Lemma length_filter_zero {A} (P : A → Prop) `{∀ x, Decision (P x)} (l : list A) :
  length (filter P l) = 0 → ∀ x, x ∈ l → ¬ P x.
Proof.
  intros Hlen x Hin HP.
  assert (x ∈ filter P l) as Hx by (by apply list_elem_of_filter).
  destruct (filter P l); [by apply elem_of_nil in Hx | discriminate Hlen].
Qed.

Lemma length_filter_pos {A} (P : A → Prop) `{∀ x, Decision (P x)} (l : list A) :
  length (filter P l) ≠ 0 → ∃ x, x ∈ l ∧ P x.
Proof.
  intros Hlen. destruct (filter P l) as [|x k] eqn:Hf; [done|].
  assert (x ∈ filter P l) as Hx by (rewrite Hf; left).
  apply list_elem_of_filter in Hx as [HP Hin]. eauto.
Qed.

(** *** The tables the planner builds *)

Lemma init_lookup {A} (a : A) (ids : list string) (b : string) :
  foldr (λ b m, <[b := a]> m) (∅ : gmap string A) ids !! b
    = if decide (b ∈ ids) then Some a else None.
Proof.
  induction ids as [|i ids IH]; cbn [foldr].
  - rewrite lookup_empty. case_decide as Hin; [by apply elem_of_nil in Hin|done].
  - destruct (decide (i = b)) as [->|Hne].
    + rewrite lookup_insert_eq. by rewrite decide_True by left.
    + rewrite lookup_insert_ne by done. rewrite IH.
      destruct (decide (b ∈ ids)) as [Hin|Hin].
      * by rewrite decide_True by (by right).
      * rewrite decide_False; [done|]. intros [->|?]%elem_of_cons; done.
Qed.

Lemma adjacency_fold (connections : list Connection) (m : gmap string (list string))
    (b : string) :
  foldl (λ m c, alter (λ succ, (succ ++ [target_block_id c])%list)
                      (source_block_id c) m) m connections !! b
    = (λ succ, (succ ++ successors connections b)%list) <$> m !! b.
Proof.
  revert m. induction connections as [|c connections IH]; intros m; simpl.
  - unfold successors. rewrite filter_nil. simpl.
    destruct (m !! b); simpl; [by rewrite app_nil_r|done].
  - rewrite IH. unfold successors. rewrite filter_cons.
    destruct (decide (source_block_id c = b)) as [<-|Hne].
    + rewrite lookup_alter_eq. destruct (m !! source_block_id c); simpl; [|done].
      by rewrite <- app_assoc.
    + by rewrite lookup_alter_ne.
Qed.

Lemma adjacency_lookup (ids : list string) (connections : list Connection)
    (b : string) :
  b ∈ ids → adjacency ids connections !! b = Some (successors connections b).
Proof.
  intros Hb. unfold adjacency. rewrite adjacency_fold, init_lookup.
  by rewrite decide_True.
Qed.

Lemma indegree_fold (connections : list Connection) (m : gmap string nat)
    (v : string) :
  foldl (λ m c, alter S (target_block_id c) m) m connections !! v
    = (λ n, n + length (filter (λ c, target_block_id c = v) connections)) <$> m !! v.
Proof.
  revert m. induction connections as [|c connections IH]; intros m; simpl.
  - destruct (m !! v); simpl; [f_equal; lia|done].
  - rewrite IH, filter_cons.
    destruct (decide (target_block_id c = v)) as [<-|Hne].
    + rewrite lookup_alter_eq. destruct (m !! target_block_id c); simpl; [|done].
      f_equal. lia.
    + by rewrite lookup_alter_ne.
Qed.

Lemma indegree_init_lookup (ids : list string) (connections : list Connection)
    (v : string) :
  v ∈ ids →
  indegree_init ids connections !! v
    = Some (length (filter (λ c, target_block_id c = v) connections)).
Proof.
  intros Hv. unfold indegree_init. rewrite indegree_fold, init_lookup.
  by rewrite decide_True.
Qed.

Lemma decrement_fold (targets : list string) (m : gmap string nat) (v : string) :
  foldl (λ m' t, alter Nat.pred t m') m targets !! v
    = (λ n, n - length (filter (λ t, t = v) targets)) <$> m !! v.
Proof.
  revert m. induction targets as [|t targets IH]; intros m; simpl.
  - destruct (m !! v); simpl; [f_equal; lia|done].
  - rewrite IH, filter_cons.
    destruct (decide (t = v)) as [->|Hne].
    + rewrite lookup_alter_eq. destruct (m !! v); simpl; [|done].
      f_equal. lia.
    + by rewrite lookup_alter_ne.
Qed.

Lemma release_lookup (adj : gmap string (list string)) (level : list string)
    (indeg : gmap string nat) (v : string) :
  release adj level indeg !! v
    = (λ n, n - length (filter (λ t, t = v)
                          (level ≫= λ b, default [] (adj !! b)))) <$> indeg !! v.
Proof.
  unfold release. revert indeg.
  induction level as [|b level IH]; intros indeg.
  - simpl. destruct (indeg !! v); simpl; [f_equal; lia|done].
  - cbn [foldl]. rewrite IH, decrement_fold, bind_cons, filter_app, length_app.
    destruct (indeg !! v); simpl; [f_equal; lia|done].
Qed.

(** *** The in-degree counts follow the blocks that remain *)

Lemma filter_ext_elem_of {A} (P Q : A → Prop)
    `{∀ x, Decision (P x)} `{∀ x, Decision (Q x)} (l : list A) :
  (∀ x, x ∈ l → P x ↔ Q x) → filter P l = filter Q l.
Proof.
  induction l as [|x l IH]; intros Heq; [reflexivity|].
  rewrite !filter_cons.
  assert (P x ↔ Q x) as Hx by (apply Heq; left).
  rewrite IH by (intros y Hy; apply Heq; by right).
  destruct (decide (P x)), (decide (Q x)); tauto.
Qed.

Lemma successors_hits (connections : list Connection) (b v : string) :
  length (filter (λ t, t = v) (successors connections b))
    = length (filter (λ c, target_block_id c = v ∧ source_block_id c = b)
                     connections).
Proof.
  unfold successors. induction connections as [|c connections IH]; [reflexivity|].
  rewrite !filter_cons.
  destruct (decide (source_block_id c = b)) as [Hs|Hs].
  - rewrite fmap_cons, filter_cons.
    destruct (decide (target_block_id c = v)) as [Ht|Ht].
    + rewrite decide_True by done. simpl. by rewrite IH.
    + rewrite decide_False by tauto. done.
  - rewrite decide_False by tauto. done.
Qed.

Lemma incoming_nil (connections : list Connection) (v : string) :
  incoming connections [] v = [].
Proof.
  unfold incoming. destruct (filter _ connections) as [|c k] eqn:Hf; [done|].
  assert (c ∈ c :: k) as Hc by left. rewrite <- Hf in Hc.
  apply list_elem_of_filter in Hc as [[_ Hin] _]. by apply elem_of_nil in Hin.
Qed.

Lemma level_hits (ids : list string) (connections : list Connection)
    (level : list string) (v : string) :
  NoDup level → (∀ b, b ∈ level → b ∈ ids) →
  length (filter (λ t, t = v)
            (level ≫= λ b, default [] (adjacency ids connections !! b)))
    = length (incoming connections level v).
Proof.
  induction level as [|b level IH]; intros Hnd Hids.
  - by rewrite incoming_nil.
  - apply NoDup_cons in Hnd as [Hb Hnd].
    rewrite bind_cons, filter_app, length_app.
    rewrite adjacency_lookup by (apply Hids; left). simpl.
    rewrite successors_hits, IH by (done || (intros; apply Hids; by right)).
    symmetry. unfold incoming. apply length_filter_split.
    + intros c. rewrite elem_of_cons. tauto.
    + intros c [_ ->] [_ Hin]. done.
Qed.

Section Rounds.
Variable ids : list string.
Variable connections : list Connection.

Hypothesis no_dangling :
  ∀ c, c ∈ connections → source_block_id c ∈ ids ∧ target_block_id c ∈ ids.

Lemma counts_agree_init :
  counts_agree connections (indegree_init ids connections) ids.
Proof.
  intros v Hv. rewrite indegree_init_lookup by done. do 2 f_equal.
  unfold incoming. apply filter_ext_elem_of.
  intros c Hc. destruct (no_dangling c Hc). tauto.
Qed.

Lemma ready_elem_of (indeg : gmap string nat) (remaining : list string) (b : string) :
  b ∈ ready indeg remaining ↔ indeg !! b = Some 0 ∧ b ∈ remaining.
Proof. apply (list_elem_of_filter (λ b, indeg !! b = Some 0)). Qed.

Lemma list_difference_filter (l k : list string) :
  list_difference l k = filter (λ x, x ∉ k) l.
Proof.
  induction l as [|x l IH]; [reflexivity|].
  rewrite filter_cons. simpl. rewrite IH.
  destruct (decide_rel elem_of x k), (decide (x ∉ k)); done.
Qed.

Lemma remaining_split (indeg : gmap string nat) (remaining : list string) :
  ready indeg remaining ++ list_difference remaining (ready indeg remaining)
    ≡ₚ remaining.
Proof.
  rewrite list_difference_filter.
  rewrite (filter_ext_elem_of (λ x, x ∉ ready indeg remaining)
                              (λ x, ¬ indeg !! x = Some 0)).
  - apply (filter_app_complement (λ b, indeg !! b = Some 0)).
  - intros x Hx. rewrite ready_elem_of. tauto.
Qed.

Lemma counts_agree_step (indeg : gmap string nat) (remaining : list string) :
  NoDup remaining → (∀ b, b ∈ remaining → b ∈ ids) →
  counts_agree connections indeg remaining →
  counts_agree connections
    (release (adjacency ids connections) (ready indeg remaining) indeg)
    (list_difference remaining (ready indeg remaining)).
Proof.
  intros Hnd Hids Hinv v Hv.
  apply list_elem_of_difference in Hv as [HvR HvL].
  rewrite release_lookup, (Hinv v HvR). simpl. f_equal.
  rewrite level_hits.
  - assert (length (incoming connections remaining v)
            = length (incoming connections (ready indeg remaining) v)
              + length (incoming connections
                          (list_difference remaining (ready indeg remaining)) v))
      as ->; [|lia].
    unfold incoming. apply length_filter_split.
    + intros c. rewrite list_elem_of_difference, ready_elem_of.
      destruct (decide (indeg !! source_block_id c = Some 0)); tauto.
    + intros c [_ HL] [_ HR']. apply list_elem_of_difference in HR'. tauto.
  - by apply NoDup_filter.
  - intros b Hb. apply ready_elem_of in Hb. apply Hids. tauto.
Qed.

Lemma level_of_is_Some (levels : list (list string)) (b : string) :
  b ∈ concat levels ↔ is_Some (level_of levels b).
Proof.
  induction levels as [|level levels IH]; simpl.
  - split; [intros []%elem_of_nil | intros [? [=]]].
  - rewrite elem_of_app. case_bool_decide as Hb.
    + split; [eauto|tauto].
    + rewrite IH, fmap_is_Some. tauto.
Qed.

Lemma rounds_S (fuel : nat) (adj : gmap string (list string))
    (indeg : gmap string nat) (remaining : list string) :
  rounds (S fuel) adj indeg remaining
    = match ready indeg remaining with
      | [] => ([], remaining)
      | level =>
          let '(levels, rest) :=
            rounds fuel adj (release adj level indeg)
                   (list_difference remaining level) in
          (level :: levels, rest)
      end.
Proof. reflexivity. Qed.

(** What the rounds give, whatever the graph: the levels and the blocks
    left over are the blocks that remained; every block left over has a
    connection from a block left over; and a connection from a block
    that remained to a block now placed goes from a lower level to a
    higher one. *)
Lemma rounds_spec (fuel : nat) :
  ∀ (indeg : gmap string nat) (remaining : list string)
    (levels : list (list string)) (rest : list string),
    NoDup remaining → (∀ b, b ∈ remaining → b ∈ ids) →
    counts_agree connections indeg remaining →
    (length remaining ≤ fuel)%nat →
    rounds fuel (adjacency ids connections) indeg remaining = (levels, rest) →
    concat levels ++ rest ≡ₚ remaining ∧
    (∀ v, v ∈ rest → ∃ s, s ∈ rest ∧ edge connections s v) ∧
    (∀ c, c ∈ connections → source_block_id c ∈ remaining →
          target_block_id c ∈ concat levels →
          ∃ i j, level_of levels (source_block_id c) = Some i ∧
                 level_of levels (target_block_id c) = Some j ∧ (i < j)%nat).
Proof.
  induction fuel as [|fuel IH];
    intros indeg remaining levels rest Hnd Hids Hinv Hlen Hrounds.
  - simpl in Hrounds. injection Hrounds as <- <-.
    apply Nat.le_0_r, nil_length_inv in Hlen as ->.
    split_and!; [done| intros v []%elem_of_nil | intros c _ _ []%elem_of_nil].
  - rewrite rounds_S in Hrounds.
    destruct (ready indeg remaining) as [|b0 level] eqn:Hready.
    + injection Hrounds as <- <-.
      split_and!; [done| | intros c _ _ []%elem_of_nil].
      intros v Hv.
      assert (indeg !! v ≠ Some 0) as Hnz.
      { intros Hz. assert (v ∈ ready indeg remaining) as Hin
          by (by apply ready_elem_of).
        rewrite Hready in Hin. by apply elem_of_nil in Hin. }
      rewrite (Hinv v Hv) in Hnz.
      destruct (length_filter_pos
                  (λ c, target_block_id c = v ∧ source_block_id c ∈ remaining)
                  connections) as (c & Hc & Htgt & Hsrc).
      { intros Hz. apply Hnz. unfold incoming. by rewrite Hz. }
      exists (source_block_id c). split; [done|]. by exists c.
    + rewrite <- Hready in *. cbv zeta in Hrounds.
      pose proof (remaining_split indeg remaining) as Hsplit.
      destruct (rounds fuel (adjacency ids connections)
                  (release (adjacency ids connections) (ready indeg remaining) indeg)
                  (list_difference remaining (ready indeg remaining)))
        as [levels' rest'] eqn:Hrec.
      injection Hrounds as <- <-.
      apply IH in Hrec as (Hperm & Hstuck & Horder).
      * split_and!.
        -- simpl. rewrite <- app_assoc, Hperm. done.
        -- done.
        -- intros c Hc Hsrc Htgt. simpl in Htgt.
           apply elem_of_app in Htgt as [Htgt|Htgt].
           ++ apply ready_elem_of in Htgt as [Hz HtR].
              rewrite (Hinv _ HtR) in Hz. injection Hz as Hz.
              destruct (length_filter_zero _ _ Hz c Hc). done.
           ++ assert (target_block_id c
                        ∈ list_difference remaining (ready indeg remaining)) as Ht'
                by (rewrite <- Hperm; apply elem_of_app; by left).
              apply list_elem_of_difference in Ht' as [_ HtL].
              apply level_of_is_Some in Htgt as Hj.
              destruct (decide (source_block_id c ∈ ready indeg remaining))
                as [HsL|HsL].
              ** destruct Hj as [j Hj]. exists 0, (S j). simpl.
                 rewrite bool_decide_eq_true_2, bool_decide_eq_false_2 by done.
                 rewrite Hj. split_and!; [done|done|lia].
              ** destruct (Horder c Hc) as (i & j & Hi & Hj' & Hij);
                   [by apply list_elem_of_difference|done|].
                 exists (S i), (S j). simpl.
                 rewrite !bool_decide_eq_false_2 by done.
                 rewrite Hi, Hj'. split_and!; [done|done|lia].
      * by apply NoDup_list_difference.
      * intros b Hb. apply list_elem_of_difference in Hb. apply Hids. tauto.
      * by apply counts_agree_step.
      * apply Permutation_length in Hsplit. rewrite length_app in Hsplit.
        rewrite Hready in Hsplit at 1. simpl in Hsplit. lia.
Qed.
End Rounds.

(** *** Graphs without a cycle *)

(** A graph whose connections all climb a rank has no cycle. *)
Lemma acyclic_by_rank (connections : list Connection) (rank : string → nat) :
  Forall (λ c, (rank (source_block_id c) < rank (target_block_id c))%nat)
         connections →
  acyclic connections.
Proof.
  intros Hrank.
  assert (∀ s t, tc (edge connections) s t → (rank s < rank t)%nat) as Htc.
  { intros s t Hst. induction Hst as [s t (c & Hc & <- & <-)
                                      | s u t (c & Hc & <- & <-) _ IH].
    - by apply (proj1 (Forall_forall _ _) Hrank).
    - apply (proj1 (Forall_forall _ _) Hrank) in Hc. lia. }
  intros b Hb. apply Htc in Hb. lia.
Qed.

(** In a graph without a cycle, a block with a connection from a block of
    the same list, for every block of the list, takes a list that is
    empty: walking the connections backwards finds ever more blocks. *)
Lemma ancestors_chain (connections : list Connection) (rest : list string) (n : nat) :
  acyclic connections →
  (∀ v, v ∈ rest → ∃ s, s ∈ rest ∧ edge connections s v) →
  ∀ v, v ∈ rest →
    ∃ chain, NoDup chain ∧ length chain = n ∧
             ∀ u, u ∈ chain → u ∈ rest ∧ tc (edge connections) u v.
Proof.
  intros Hacyc Hpred. induction n as [|n IH]; intros v Hv.
  - exists []. split_and!; [constructor|done|intros u []%elem_of_nil].
  - destruct (Hpred v Hv) as (s & Hs & Hedge).
    destruct (IH s Hs) as (chain & Hnd & Hlen & Hchain).
    exists (s :: chain). split_and!.
    + constructor; [|done]. intros Hin. apply Hchain in Hin as [_ Hcyc].
      by apply (Hacyc s).
    + simpl. by rewrite Hlen.
    + intros u [->|Hu]%elem_of_cons.
      * split; [done|]. by apply tc_once.
      * apply Hchain in Hu as [Hu Htc]. split; [done|].
        eapply tc_r; eauto.
Qed.

Lemma acyclic_none_left (connections : list Connection) (rest : list string) :
  acyclic connections →
  (∀ v, v ∈ rest → ∃ s, s ∈ rest ∧ edge connections s v) →
  rest = [].
Proof.
  intros Hacyc Hpred. destruct rest as [|v rest]; [reflexivity|exfalso].
  destruct (ancestors_chain connections (v :: rest) (S (length (v :: rest)))
              Hacyc Hpred v) as (chain & Hnd & Hlen & Hchain); [left|].
  assert (chain ⊆+ v :: rest) as Hsub
    by (apply NoDup_submseteq; [done|]; intros u Hu; by apply Hchain).
  apply submseteq_length in Hsub. lia.
Qed.

(** *** Enough rounds *)

(** A round that places a block leaves fewer blocks, so the rounds the
    planner makes do not depend on the fuel once it covers the blocks. *)
Lemma rounds_fuel (adj : gmap string (list string)) (fuel : nat) :
  ∀ (fuel' : nat) (indeg : gmap string nat) (remaining : list string),
    (length remaining ≤ fuel)%nat → (length remaining ≤ fuel')%nat →
    rounds fuel adj indeg remaining = rounds fuel' adj indeg remaining.
Proof.
  induction fuel as [|fuel IH]; intros fuel' indeg remaining Hlen Hlen'.
  - apply Nat.le_0_r, nil_length_inv in Hlen as ->. by destruct fuel'.
  - destruct fuel' as [|fuel'].
    + by apply Nat.le_0_r, nil_length_inv in Hlen' as ->.
    + rewrite !rounds_S.
      destruct (ready indeg remaining) as [|b0 level] eqn:Hready; [reflexivity|].
      rewrite <- Hready. cbv zeta.
      pose proof (remaining_split indeg remaining) as Hsplit.
      apply Permutation_length in Hsplit. rewrite length_app in Hsplit.
      rewrite Hready in Hsplit at 1. cbn [length] in Hsplit.
      rewrite (IH fuel') by lia. reflexivity.
Qed.

Lemma rounds_enough_fuel (adj : gmap string (list string)) (fuel : nat)
    (indeg : gmap string nat) (remaining : list string) :
  (length remaining ≤ fuel)%nat →
  rounds fuel adj indeg remaining = rounds (length remaining) adj indeg remaining.
Proof. intros Hlen. by apply rounds_fuel. Qed.

(** *** The plan of an acyclic workflow *)

(** C1: for a workflow graph (distinct block ids, connections between its
    blocks) without a cycle and with a respond block, [plan] returns
    levels; their concatenation holds every block id exactly once, and
    every connection goes from a level to a strictly later one. *)
Theorem plan_levels (blocks : list Block) (connections : list Connection) :
  well_formed blocks connections →
  acyclic connections →
  has_respond blocks →
  ∃ levels,
    plan blocks connections = Levels levels ∧
    concat levels ≡ₚ block_ids blocks ∧
    NoDup (concat levels) ∧
    ∀ c, c ∈ connections →
      ∃ i j, level_of levels (source_block_id c) = Some i ∧
             level_of levels (target_block_id c) = Some j ∧ (i < j)%nat.
Proof.
  intros [Hnd Hdang] Hacyc (b & Hb & Hresp). unfold plan.
  destruct (existsb (dangling (block_ids blocks)) connections) eqn:Hd.
  { apply existsb_exists in Hd as (c & Hc & Hd).
    apply list_elem_of_In, Hdang in Hc.
    unfold dangling in Hd. apply negb_true_iff, bool_decide_eq_false in Hd.
    contradiction. }
  assert (existsb is_respond blocks = true) as ->.
  { apply existsb_exists. exists b. split; [by apply list_elem_of_In|].
    unfold is_respond. by apply bool_decide_eq_true_2. }
  cbn [negb].
  destruct (rounds (length (block_ids blocks))
              (adjacency (block_ids blocks) connections)
              (indegree_init (block_ids blocks) connections)
              (block_ids blocks)) as [levels rest] eqn:Hrounds.
  apply (rounds_spec (block_ids blocks) connections) in Hrounds
    as (Hperm & Hstuck & Horder);
    [|done|done|by apply counts_agree_init|done].
  apply (acyclic_none_left _ _ Hacyc) in Hstuck as ->.
  rewrite app_nil_r in Hperm.
  exists levels. split_and!; [done|done|by rewrite Hperm|].
  intros c Hc. destruct (Hdang c Hc) as [Hs Ht].
  apply Horder; [done|done|by rewrite Hperm].
Qed.

(** The small workflow has a plan. *)
Lemma plan_levels_witness :
  ∃ levels,
    plan diamond_blocks diamond_connections = Levels levels ∧
    concat levels ≡ₚ block_ids diamond_blocks ∧
    NoDup (concat levels) ∧
    ∀ c, c ∈ diamond_connections →
      ∃ i j, level_of levels (source_block_id c) = Some i ∧
             level_of levels (target_block_id c) = Some j ∧ (i < j)%nat.
Proof.
  apply plan_levels.
  - split; [compute_done|]. apply Forall_forall. compute_done.
  - apply (acyclic_by_rank _ diamond_rank). compute_done.
  - exists (mk_block "out" "output"). split; [left|reflexivity].
Defined.

(** The plan of the small workflow, and what the planner answers when a
    connection closes a cycle or names a block that is not there. *)
Example plan_diamond :
  plan diamond_blocks diamond_connections
    = Levels [["in"]; ["db"; "api"]; ["t"]; ["out"]].
Proof. reflexivity. Qed.

Example plan_cycle :
  plan diamond_blocks (mk_conn "out" "in" :: diamond_connections)
    = GraphError (Cycle "out").
Proof. reflexivity. Qed.

Example plan_dangling :
  plan diamond_blocks (mk_conn "out" "nowhere" :: diamond_connections)
    = GraphError DanglingEdge.
Proof. reflexivity. Qed.

(** * Further properties of the editor's code *)

(** ** Escaping the exported code *)

Lemma append_cons (c : ascii) (a b : string) :
  String c a ++ b = String c (a ++ b).
Proof. reflexivity. Qed.

Lemma append_assoc (a b c : string) : (a ++ b) ++ c = a ++ b ++ c.
Proof.
  induction a as [|x a IH]; [reflexivity|].
  by rewrite !append_cons, IH.
Qed.

Lemma replace_all_app (c : ascii) (replacement a b : string) :
  replace_all c replacement (a ++ b)
    = replace_all c replacement a ++ replace_all c replacement b.
Proof.
  induction a as [|x a IH]; [reflexivity|].
  rewrite append_cons. cbn [replace_all].
  by rewrite IH, append_assoc.
Qed.

Lemma escapeHtml_app (a b : string) :
  escapeHtml (a ++ b) = escapeHtml a ++ escapeHtml b.
Proof. unfold escapeHtml. by rewrite !replace_all_app. Qed.

(** What one character becomes. *)
Lemma escapeHtml_char (c : ascii) :
  escapeHtml (String c "")
    = if Ascii.eqb c "&" then "&amp;"
      else if Ascii.eqb c "<" then "&lt;"
      else if Ascii.eqb c ">" then "&gt;"
      else String c "".
Proof.
  unfold escapeHtml. simpl.
  destruct (Ascii.eqb_spec c "&") as [->|Hamp]; [reflexivity|]. simpl.
  destruct (Ascii.eqb_spec c "<") as [->|Hlt]; [reflexivity|]. simpl.
  destruct (Ascii.eqb_spec c ">") as [->|Hgt]; reflexivity.
Qed.

Lemma escapeHtml_cons (c : ascii) (s : string) :
  escapeHtml (String c s) = escapeHtml (String c "") ++ escapeHtml s.
Proof. by rewrite <- escapeHtml_app. Qed.

(** X1: The three replacements, made one after the other over the whole text,
    escape every character once: the ampersands that the later
    replacements write are not escaped again, and the ampersands of the
    text are escaped before them.  The result is the text with each
    character replaced on its own. *)
Theorem escapeHtml_single_pass (a b : string) (c : ascii) :
  escapeHtml "" = "" ∧
  escapeHtml (a ++ b) = escapeHtml a ++ escapeHtml b ∧
  escapeHtml (String c b)
    = (if Ascii.eqb c "&" then "&amp;"
       else if Ascii.eqb c "<" then "&lt;"
       else if Ascii.eqb c ">" then "&gt;"
       else String c "") ++ escapeHtml b.
Proof.
  split_and!; [reflexivity|apply escapeHtml_app|].
  by rewrite escapeHtml_cons, escapeHtml_char.
Qed.

Lemma occurs_app (c : ascii) (a b : string) :
  occurs c (a ++ b) = occurs c a || occurs c b.
Proof.
  induction a as [|x a IH]; [reflexivity|].
  rewrite append_cons. cbn [occurs].
  by rewrite IH, orb_assoc.
Qed.

(** X2: The escaped text holds no [<] and no [>], whatever the text; a text
    without [&], [<] and [>] is left as it is. *)
Theorem escapeHtml_no_markup (str : string) :
  occurs "<" (escapeHtml str) = false ∧
  occurs ">" (escapeHtml str) = false ∧
  (occurs "&" str = false → occurs "<" str = false → occurs ">" str = false →
   escapeHtml str = str).
Proof.
  induction str as [|c str (IHlt & IHgt & IHid)]; [by split_and!|].
  rewrite escapeHtml_cons, !occurs_app, IHlt, IHgt, escapeHtml_char.
  destruct (Ascii.eqb_spec c "&") as [->|Hamp];
    [split_and!; [reflexivity|reflexivity|discriminate]|].
  destruct (Ascii.eqb_spec c "<") as [->|Hlt];
    [split_and!; [reflexivity|reflexivity|discriminate]|].
  destruct (Ascii.eqb_spec c ">") as [->|Hgt];
    [split_and!; [reflexivity|reflexivity|intros _ _; discriminate]|].
  simpl. rewrite !orb_false_r.
  split_and!.
  - by apply Ascii.eqb_neq.
  - by apply Ascii.eqb_neq.
  - intros H1 H2 H3. apply orb_false_iff in H1 as [_ H1].
    apply orb_false_iff in H2 as [_ H2]. apply orb_false_iff in H3 as [_ H3].
    by rewrite IHid.
Qed.

(** X3: Two texts with the same escaped text are the same text. *)
Theorem escapeHtml_injective (s1 s2 : string) :
  escapeHtml s1 = escapeHtml s2 → s1 = s2.
Proof.
  revert s2. induction s1 as [|c1 s1 IH]; intros [|c2 s2] Heq.
  - reflexivity.
  - rewrite escapeHtml_cons, escapeHtml_char in Heq.
    repeat case_match; discriminate Heq.
  - rewrite escapeHtml_cons, escapeHtml_char in Heq.
    repeat case_match; discriminate Heq.
  - rewrite (escapeHtml_cons c1), (escapeHtml_cons c2), !escapeHtml_char in Heq.
    destruct (Ascii.eqb_spec c1 "&") as [->|Ha1];
    destruct (Ascii.eqb_spec c2 "&") as [->|Ha2];
    try destruct (Ascii.eqb_spec c1 "<") as [->|Hl1];
    try destruct (Ascii.eqb_spec c2 "<") as [->|Hl2];
    try destruct (Ascii.eqb_spec c1 ">") as [->|Hg1];
    try destruct (Ascii.eqb_spec c2 ">") as [->|Hg2];
    simpl in Heq; try discriminate Heq;
    try (injection Heq as Heq; f_equal; by apply IH);
    try (injection Heq as Hc Heq; congruence).
    injection Heq as -> Heq. f_equal. by apply IH.
Qed.

Lemma escapeHtml_injective_witness : "a<b" = "a<b".
Proof. apply escapeHtml_injective. reflexivity. Defined.

(** ** New nodes: ids, drops and the palette *)







Lemma BLOCK_TYPES_lookup (type : string) :
  type ∈ BLOCK_ORDER ↔ is_Some (BLOCK_TYPES !! type).
Proof.
  rewrite <- elem_of_dom.
  assert (dom BLOCK_TYPES = list_to_set BLOCK_ORDER) as -> by (vm_compute; reflexivity).
  by rewrite elem_of_list_to_set.
Qed.









(** ** Configuration updates, one after the other *)

Lemma update_if_selected_id (nodeId : string) (newConfig newLabel : JValue)
    (node : Node) :
  node_id (update_if_selected nodeId newConfig newLabel node) = node_id node.
Proof. unfold update_if_selected. by destruct (String.eqb _ _). Qed.


Lemma update_if_selected_twice (nodeId : string) (c1 l1 c2 l2 : JValue)
    (node : Node) :
  update_if_selected nodeId c2 l2 (update_if_selected nodeId c1 l1 node)
    = update_if_selected nodeId c2 (later_label l1 l2) node.
Proof.
  unfold update_if_selected at 1. rewrite update_if_selected_id.
  unfold update_if_selected.
  destruct (String.eqb (node_id node) nodeId); [|reflexivity].
  unfold updated_node. simpl. by destruct l2, l1.
Qed.



(** X9: Of two updates of the same node the later config stays, and the later
    label when one is given, the earlier otherwise; an update made twice
    is the update made once. *)
Theorem onUpdateConfig_last_write (nodeId : string) (c1 l1 c2 l2 : JValue)
    (st : EditorState) :
  onUpdateConfig nodeId c2 l2 (onUpdateConfig nodeId c1 l1 st)
    = onUpdateConfig nodeId c2 (later_label l1 l2) st ∧
  onUpdateConfig nodeId c1 l1 (onUpdateConfig nodeId c1 l1 st)
    = onUpdateConfig nodeId c1 l1 st.
Proof.
  assert (∀ c1 l1 c2 l2,
            onUpdateConfig nodeId c2 l2 (onUpdateConfig nodeId c1 l1 st)
            = onUpdateConfig nodeId c2 (later_label l1 l2) st) as Htwice.
  { intros. unfold onUpdateConfig. cbn [nodes edges selectedNode]. f_equal.
    - rewrite <- !list_fmap_compose. apply list_fmap_ext. intros _ node _.
      apply update_if_selected_twice.
    - destruct (selectedNode st) as [node|]; [|reflexivity]. simpl. f_equal.
      apply update_if_selected_twice. }
  split; [apply Htwice|]. rewrite Htwice. by destruct l1.
Qed.

(** X10: An update for an id that no node of the canvas has, and that the
    selected node has not, changes nothing. *)
Theorem onUpdateConfig_absent (nodeId : string) (newConfig newLabel : JValue)
    (st : EditorState) :
  nodeId ∉ node_ids st →
  (∀ node, selectedNode st = Some node → node_id node ≠ nodeId) →
  onUpdateConfig nodeId newConfig newLabel st = st.
Proof.
  intros Hnodes Hsel. destruct st as [ns es sel].
  unfold onUpdateConfig, node_ids in *. cbn [nodes edges selectedNode] in *. f_equal.
  - rewrite <- (list_fmap_id ns) at 2. apply list_fmap_ext. intros i node Hin.
    apply update_if_selected_other. intros Heq. apply Hnodes.
    rewrite <- Heq. apply list_elem_of_fmap_2.
    by apply list_elem_of_lookup_2 in Hin.
  - destruct sel as [node|]; [|reflexivity]. simpl. f_equal.
    apply update_if_selected_other. by apply Hsel.
Qed.

Lemma onUpdateConfig_absent_witness :
  onUpdateConfig "nowhere" (JObj []) (JStr "x") (initial_editor [saved_block] [])
    = initial_editor [saved_block] [].
Proof.
  apply onUpdateConfig_absent.
  - compute_done.
  - intros node Hnode. discriminate Hnode.
Defined.



(** ** Saving what was loaded, loading what was made *)

Lemma meta_label_truthy (type : string) (meta : BlockMeta) :
  BLOCK_TYPES !! type = Some meta →
  truthy (JStr (meta_label meta)) = true ∧ truthy (defaultConfig meta) = true ∧
  JObj (own_fields (defaultConfig meta)) = defaultConfig meta.
Proof.
  intros Hmeta.
  assert (type ∈ BLOCK_ORDER) as Hin by (apply BLOCK_TYPES_lookup; eauto).
  unfold BLOCK_ORDER in Hin.
  repeat (apply elem_of_cons in Hin as [->|Hin];
          [vm_compute in Hmeta; injection Hmeta as <-; by split_and!|]).
  by apply elem_of_nil in Hin.
Qed.

Lemma js_or_truthy_r (a b : JValue) : truthy b = true → truthy (js_or a b) = true.
Proof. unfold js_or. intros Hb. by destruct (truthy a) eqn:Ha. Qed.

Lemma type_label_default_truthy (type : string) :
  truthy (js_or (type_label type) (JStr "Block")) = true.
Proof. by apply js_or_truthy_r. Qed.

Lemma blockToNode_complete (b : Block) :
  block_complete (nodeToBlock (blockToNode b)).
Proof.
  unfold block_complete, nodeToBlock, blockToNode. simpl.
  split_and!; apply js_or_truthy_r; [apply type_label_default_truthy|done|].
  by apply js_or_truthy_r.
Qed.

Lemma string_nonempty_truthy (c : ascii) (s : string) :
  truthy (JStr (String c s)) = true.
Proof. reflexivity. Qed.

Lemma connection_saved_twice (c : Connection) :
  edgeToConnection (connToEdge (edgeToConnection (connToEdge c)))
    = edgeToConnection (connToEdge c).
Proof.
  unfold edgeToConnection, connToEdge. simpl. f_equal.
  - rewrite (js_or_truthy (js_or _ _)); [done|]. by apply js_or_truthy_r.
  - rewrite !(js_or_truthy (js_or _ (JStr "output"))); [done|..];
      repeat apply js_or_truthy_r; done.
  - rewrite !(js_or_truthy (js_or _ (JStr "input"))); [done|..];
      repeat apply js_or_truthy_r; done.
Qed.

(** X12: Opening a workflow and saving it at once normalises it (defaults are
    filled in); doing so a second time changes nothing more: every saved
    block is complete, and the saved blocks and connections are saved as
    they are. *)
Theorem save_after_load_idempotent (blocks : list Block)
    (connections : list Connection) :
  let saved := handleSave (initial_editor blocks connections) in
  Forall block_complete saved.1 ∧
  handleSave (initial_editor saved.1 saved.2) = saved.
Proof.
  cbv zeta. unfold handleSave, initial_editor. cbn [nodes edges fst snd].
  unfold nodesToBlocks, edgesToConnections. split.
  - apply Forall_forall. intros b Hb.
    rewrite <- list_fmap_compose in Hb.
    apply list_elem_of_fmap in Hb as (b0 & -> & _). apply blockToNode_complete.
  - f_equal.
    + rewrite <- !list_fmap_compose. apply list_fmap_ext. intros _ b _. simpl.
      apply block_roundtrip. apply blockToNode_complete.
    + rewrite <- !list_fmap_compose. apply list_fmap_ext. intros _ c _. simpl.
      apply connection_saved_twice.
Qed.

(** X13: What is made on the canvas comes back from a save as it was made: a
    node dropped from the palette at a position, and an edge drawn between
    two handles. *)
Theorem canvas_objects_survive_reload (id blockType : string) (position : JValue)
    (meta : BlockMeta) (source target : string) (source_h target_h : JValue) :
  BLOCK_TYPES !! blockType = Some meta →
  truthy position = true →
  truthy source_h = true → truthy target_h = true →
  blockToNode (nodeToBlock (dropped_node id blockType position meta))
    = dropped_node id blockType position meta ∧
  connToEdge (edgeToConnection (onConnect_edge source target source_h target_h))
    = onConnect_edge source target source_h target_h.
Proof.
  intros Hmeta Hpos Hsh Hth.
  destruct (meta_label_truthy _ _ Hmeta) as (Hl & Hc & Hcopy).
  split.
  - unfold blockToNode, nodeToBlock, dropped_node. simpl.
    rewrite str_or_same, Hcopy, !js_or_truthy by done. reflexivity.
  - unfold connToEdge, edgeToConnection, onConnect_edge. simpl.
    rewrite !(js_or_truthy source_h), !(js_or_truthy target_h) by done.
    reflexivity.
Qed.

Lemma canvas_objects_survive_reload_witness :
  blockToNode (nodeToBlock (dropped_node "block_1_0" "logic" default_position logic_meta))
    = dropped_node "block_1_0" "logic" default_position logic_meta ∧
  connToEdge (edgeToConnection
                (onConnect_edge "block_1_0" "block_1_1" (JStr "output") (JStr "input")))
    = onConnect_edge "block_1_0" "block_1_1" (JStr "output") (JStr "input").
Proof. apply canvas_objects_survive_reload; reflexivity. Defined.

(** ** What the panel writes *)

Lemma get_field_set_field (key : string) (value : JValue)
    (fields : list (string * JValue)) :
  get_field key (set_field key value fields) = value.
Proof.
  induction fields as [|[k v] fields IH]; simpl.
  - by rewrite String.eqb_refl.
  - destruct (String.eqb k key) eqn:Hk; simpl; by rewrite Hk.
Qed.




(** X15: A label typed into the panel becomes the label of the selected node,
    an empty one included; the node's config stays when it is there, and
    becomes the empty object when it is missing. *)
Theorem onLabelChange_writes_label (selected : Node) (text : string)
    (st : EditorState) :
  let st' := onLabelChange selected text st in
  edges st' = edges st ∧
  ∀ i node, nodes st !! i = Some node →
    ∃ node', nodes st' !! i = Some node' ∧
      (node_id node ≠ node_id selected → node' = node) ∧
      (node_id node = node_id selected →
         data_label (node_data node') = JStr text ∧
         data_config (node_data node')
           = (if truthy (data_config (node_data selected))
              then data_config (node_data selected) else JObj [])).
Proof.
  cbv zeta. split; [reflexivity|]. intros i node Hi.
  exists (update_if_selected (node_id selected) (panel_config selected)
            (JStr text) node).
  unfold onLabelChange, onUpdateConfig. cbn [nodes].
  rewrite list_lookup_fmap, Hi. split_and!; [done| |].
  - apply update_if_selected_other.
  - intros Hid. rewrite update_if_selected_same by done. by split.
Qed.

(** X16: For a config without an operation the select of the database form
    shows find, yet the form does not show the limit field, which it
    shows for find; it shows it once find is chosen in the select. *)
Theorem db_form_without_operation (config : JValue) :
  js_get config "operation" = JUndefined →
  shown_operation config = JStr "find" ∧
  ("limit" ∉ field_key <$> render_fields "db_query" config) ∧
  "limit" ∈ field_key <$> render_fields "db_query"
                            (updated_config config "operation" (JStr "find")).
Proof.
  intros Hop. split_and!.
  - unfold shown_operation. by rewrite Hop.
  - change (render_fields "db_query" config) with (renderDbQueryConfig config).
    unfold renderDbQueryConfig. rewrite Hop. compute_done.
  - change (render_fields "db_query" ?c) with (renderDbQueryConfig c).
    unfold renderDbQueryConfig, updated_config, js_get.
    rewrite get_field_set_field. compute_done.
Qed.

Lemma db_form_without_operation_witness :
  shown_operation (JObj []) = JStr "find" ∧
  ("limit" ∉ field_key <$> render_fields "db_query" (JObj [])) ∧
  "limit" ∈ field_key <$> render_fields "db_query"
                            (updated_config (JObj []) "operation" (JStr "find")).
Proof. apply db_form_without_operation. reflexivity. Defined.

(** ** What a node shows *)


(** ** Number inputs *)










(** ** The dashboard *)

Lemma filter_all {A} (P : A → Prop) `{∀ x, Decision (P x)} (l : list A) :
  Forall P l → filter P l = l.
Proof.
  induction 1 as [|x l Hx _ IH]; [reflexivity|].
  by rewrite filter_cons_True, IH.
Qed.

(** X19: The deployed workflows and the drafts that the dashboard counts are
    never more than the workflows, and are all of them when every
    workflow has one of the two statuses. *)
Theorem stats_add_up (workflows : list Workflow) :
  stats workflows
    = (length workflows, count_status "deployed" workflows,
       count_status "draft" workflows) ∧
  (count_status "deployed" workflows + count_status "draft" workflows
   ≤ length workflows)%nat ∧
  (Forall (λ w, valid_status (wf_status w)) workflows →
   count_status "deployed" workflows + count_status "draft" workflows
   = length workflows).
Proof.
  unfold count_status.
  assert (length (filter (λ w, valid_status (wf_status w)) workflows)
          = length (filter (λ w, wf_status w = "deployed") workflows)
            + length (filter (λ w, wf_status w = "draft") workflows)) as Hsplit.
  { apply length_filter_split.
    - intros w. unfold valid_status. tauto.
    - intros w -> [=]. }
  split_and!; [reflexivity| |].
  - rewrite <- Hsplit. apply length_filter.
  - intros Hvalid. rewrite <- Hsplit. by rewrite filter_all.
Qed.

(** ** The name of a new workflow *)

Lemma lower_char_facts (c : ascii) :
  is_space (lower_char c) = is_space c ∧
  is_upper (lower_char c) = false ∧
  lower_char (lower_char c) = lower_char c.
Proof. destruct c as [[] [] [] [] [] [] [] []]; by split_and!. Qed.

Lemma toLowerCase_facts (s : string) :
  any_char is_space (toLowerCase s) = any_char is_space s ∧
  any_char is_upper (toLowerCase s) = false ∧
  toLowerCase (toLowerCase s) = toLowerCase s ∧
  (s ≠ "" → toLowerCase s ≠ "").
Proof.
  induction s as [|c s (IH1 & IH2 & IH3 & _)]; [by split_and!|].
  destruct (lower_char_facts c) as (H1 & H2 & H3). cbn [toLowerCase any_char].
  rewrite H1, H2, H3, IH1, IH2, IH3. by split_and!.
Qed.

Lemma hyphenate_from_no_space (in_run : bool) (s : string) :
  any_char is_space (hyphenate_from in_run s) = false.
Proof.
  revert in_run. induction s as [|c s IH]; intros in_run; [reflexivity|].
  cbn [hyphenate_from]. destruct (is_space c) eqn:Hc.
  - destruct in_run; [apply IH|]. cbn [any_char]. by rewrite IH.
  - cbn [any_char]. by rewrite Hc, IH.
Qed.

(** White space is all that the three steps touch besides capitals. *)
Lemma no_space_fixed (s : string) :
  any_char is_space s = false →
  skip_spaces s = s ∧ trim_end s = s ∧ ∀ in_run, hyphenate_from in_run s = s.
Proof.
  induction s as [|c s IH]; [by intros; split_and!|]. cbn [any_char].
  intros [Hc Hs]%orb_false_iff. destruct (IH Hs) as (_ & IH2 & IH3).
  cbn [skip_spaces trim_end hyphenate_from]. rewrite Hc, IH2.
  split_and!; [done|by destruct s|intros in_run; by rewrite IH3].
Qed.

Lemma skip_spaces_blank (s : string) :
  any_char (λ c, negb (is_space c)) s = false → skip_spaces s = "".
Proof.
  induction s as [|c s IH]; [done|]. cbn [any_char skip_spaces].
  intros [Hc Hs]%orb_false_iff. apply negb_false_iff in Hc. rewrite Hc. by apply IH.
Qed.

Lemma hyphenate_not_empty (s : string) : s ≠ "" → hyphenate s ≠ "".
Proof.
  destruct s as [|c s]; [done|]. intros _. unfold hyphenate. cbn [hyphenate_from].
  by destruct (is_space c).
Qed.

(** X20: The name under which a workflow is created has no white space and no
    capital letter, and is a name that the same steps leave as it is; a
    name is handed to the backend only when no creation is under way and
    the typed name is not blank, and it is then not empty. *)
Theorem created_name_normal (newName : string) (creating : bool) :
  ascii_text newName →
  any_char is_space (created_name newName) = false ∧
  any_char is_upper (created_name newName) = false ∧
  created_name (created_name newName) = created_name newName ∧
  (∀ name, handleCreate newName creating = Some name →
           creating = false ∧ name = created_name newName ∧ name ≠ "") ∧
  (any_char (λ c, negb (is_space c)) newName = false →
   handleCreate newName creating = None).
Proof.
  intros _.
  destruct (toLowerCase_facts (hyphenate (trim newName))) as (Hsp & Hup & Hlow & Hne).
  assert (any_char is_space (created_name newName) = false) as Hclean.
  { unfold created_name. rewrite Hsp. apply hyphenate_from_no_space. }
  split_and!; [done|done| | |].
  - destruct (no_space_fixed _ Hclean) as (H1 & H2 & H3).
    unfold created_name at 1. unfold trim, hyphenate. rewrite H1, H2, H3.
    apply Hlow.
  - intros name Hname. unfold handleCreate in Hname.
    destruct (String.eqb_spec (trim newName) "") as [|Htrim]; [discriminate|].
    destruct creating; [discriminate|]. injection Hname as <-.
    split_and!; [done|done|]. by apply Hne, hyphenate_not_empty.
  - intros Hblank. unfold handleCreate, trim.
    by rewrite skip_spaces_blank.
Qed.

Lemma created_name_normal_witness :
  handleCreate "  My   Awesome API " false = Some "my-awesome-api" ∧
  created_name "my-awesome-api" = "my-awesome-api".
Proof.
  destruct (created_name_normal "  My   Awesome API " false eq_refl)
    as (_ & _ & Hidem & _).
  split; [reflexivity|exact Hidem].
Defined.

(** ** The requests of the client *)




(** ** Values shown in the text areas *)

(** [a || b || c] is the same value however it is bracketed. *)
Lemma js_or_assoc (a b c : JValue) :
  js_or (js_or a b) c = js_or a (js_or b c).
Proof. unfold js_or. destruct (truthy a) eqn:Ha; [by rewrite Ha|reflexivity]. Qed.


